(** * overpass-ts: request executor, status parser and result adapters

    A shallow embedding of [src/overpass.ts] and [src/utils.ts] together
    with the properties of the retry engine, the status parser, the
    status fetch and the result adapters.

    Conventions of the embedding:
    - a JavaScript [string] is a [string] of 8-bit characters;
    - a JavaScript [number] (retry budgets, slot waiting times, HTTP
      status codes, milliseconds) is an integer, an infinity or [NaN],
      the value [parseInt] gives on garbage;
    - a promise chain is sequential code in a state-and-exception monad:
      the state is the object store and the trace of observable events
      (requests, timers, console lines); a rejected promise is a thrown
      error;
    - the remote service is an arbitrary function from the events seen so
      far to the outcome of the next [fetch]. *)

From Stdlib Require Import ZArith Ascii Lia.
From stdpp Require Import base option list strings pretty.

(** ** JavaScript built-ins used by the source *)

Module JS.

(** *** Numbers *)

(** The numbers of the program: the integers, the two infinities and
    [NaN]. On integers [+], [-] and [*] are exact, which is what the
    binary64 operations do as long as the operands and the result are
    safe integers, of magnitude at most [MAX_SAFE]; the theorems that
    follow a computation over a range of values state the range.
    Fractions and the sign of zero are left out. *)
Inductive number : Type :=
  | NaN
  | Num (z : Z)
  | Inf (positive : bool).

(** [2 ** 53], the largest integer up to which every integer is a
    binary64 number and [n - 1] differs from [n]. *)
Definition MAX_SAFE : Z := 9007199254740992.

(** [a + b], [a - b], [a * b] *)
Definition add (a b : number) : number :=
  match a, b with
  | Num x, Num y => Num (x + y)
  | Inf p, Num _ => Inf p
  | Num _, Inf q => Inf q
  | Inf p, Inf q => if Bool.eqb p q then Inf p else NaN
  | _, _ => NaN
  end.
Definition sub (a b : number) : number :=
  match a, b with
  | Num x, Num y => Num (x - y)
  | Inf p, Num _ => Inf p
  | Num _, Inf q => Inf (negb q)
  | Inf p, Inf q => if Bool.eqb p q then NaN else Inf p
  | _, _ => NaN
  end.
Definition mul (a b : number) : number :=
  match a, b with
  | Num x, Num y => Num (x * y)
  | Inf p, Num y => if (y =? 0)%Z then NaN else Inf (Bool.eqb p (0 <? y)%Z)
  | Num x, Inf q => if (x =? 0)%Z then NaN else Inf (Bool.eqb (0 <? x)%Z q)
  | Inf p, Inf q => Inf (Bool.eqb p q)
  | _, _ => NaN
  end.

(** [a > b], [a >= b], [a == b] and [a === b] on numbers: every
    comparison with [NaN] is false. *)
Definition gt (a b : number) : bool :=
  match a, b with
  | Num x, Num y => (y <? x)%Z
  | Inf p, Num _ => p
  | Num _, Inf q => negb q
  | Inf p, Inf q => p && negb q
  | _, _ => false
  end.
Definition ge (a b : number) : bool :=
  match a, b with
  | Num x, Num y => (y <=? x)%Z
  | Inf p, Num _ => p
  | Num _, Inf q => negb q
  | Inf p, Inf q => p || negb q
  | _, _ => false
  end.
Definition eq (a b : number) : bool :=
  match a, b with
  | Num x, Num y => (x =? y)%Z
  | Inf p, Inf q => Bool.eqb p q
  | _, _ => false
  end.

(** A property that was never assigned reads as [undefined]; in [>] and
    in [== 0] it behaves like [NaN]. *)
Definition ToNumber (v : option number) : number :=
  match v with
  | Some n => n
  | None => NaN
  end.

(** [Math.min(a, b)] and [Math.max(a, b)]: [NaN] as soon as one argument
    is [NaN]. *)
Definition min2 (a b : number) : number :=
  match a, b with
  | Num x, Num y => Num (Z.min x y)
  | Inf p, Num y => if p then Num y else Inf false
  | Num x, Inf q => if q then Num x else Inf false
  | Inf p, Inf q => Inf (p && q)
  | _, _ => NaN
  end.
Definition max2 (a b : number) : number :=
  match a, b with
  | Num x, Num y => Num (Z.max x y)
  | Inf p, Num y => if p then Inf true else Num y
  | Num x, Inf q => if q then Inf true else Num x
  | Inf p, Inf q => Inf (p || q)
  | _, _ => NaN
  end.

(** [Math.min(x, ...xs)] *)
Definition Math_min (x : number) (xs : list number) : number :=
  fold_left min2 xs x.

(** [`${n}`] *)
Definition number_to_string (n : number) : string :=
  match n with
  | NaN => "NaN"
  | Num z => pretty z
  | Inf true => "Infinity"
  | Inf false => "-Infinity"
  end.

(** *** Strings *)

Definition LF : ascii := ascii_of_nat 10.
Definition TAB : ascii := ascii_of_nat 9.
Definition SP : ascii := ascii_of_nat 32.

Definition ascii_eqb (a b : ascii) : bool := Ascii.eqb a b.

(** [s.split(sep)] for a separator of one character: never empty. *)
Fixpoint split (sep : ascii) (s : string) : list string :=
  match s with
  | EmptyString => [EmptyString]
  | String c s' =>
      if ascii_eqb c sep then EmptyString :: split sep s'
      else match split sep s' with
           | [] => [String c EmptyString]
           | w :: ws => String c w :: ws
           end
  end.

(** [arr[0]] of a string array; [undefined] is not reachable for the
    result of [split]. *)
Definition first (l : list string) : string :=
  match l with
  | [] => EmptyString
  | w :: _ => w
  end.

(** [s.slice(start, end)] with the relative indices of the language:
    a negative index counts from the end, both are clamped to the
    string. [None] is an omitted [end]. *)
Definition clamp_index (len : nat) (i : Z) : nat :=
  if (i <? 0)%Z then Z.to_nat (Z.max (Z.of_nat len + i) 0)
  else Nat.min (Z.to_nat i) len.

Definition slice (start : Z) (end_ : option Z) (s : string) : string :=
  let len := String.length s in
  let from := clamp_index len start in
  let to := match end_ with
            | None => len
            | Some e => clamp_index len e
            end in
  String.substring from (to - from) s.

(** [s.startsWith(p)] and the rest of [s] after [p]. *)
Fixpoint strip_prefix (p s : string) : option string :=
  match p with
  | EmptyString => Some s
  | String a p' =>
      match s with
      | EmptyString => None
      | String b s' => if ascii_eqb a b then strip_prefix p' s' else None
      end
  end.

(** [s.indexOf(pat)] *)
Fixpoint indexOf (pat s : string) : option nat :=
  match strip_prefix pat s with
  | Some _ => Some 0
  | None =>
      match s with
      | EmptyString => None
      | String _ s' => S <$> indexOf pat s'
      end
  end.

(** [s.includes(pat)] *)
Definition includes (pat s : string) : bool :=
  match indexOf pat s with
  | Some _ => true
  | None => false
  end.

(** [s.replace(pat, by)] for a string pattern: only the first
    (leftmost) occurrence is replaced; [by] holds no [$] pattern here. *)
Fixpoint replace (pat by_ s : string) : string :=
  match strip_prefix pat s with
  | Some rest => by_ +:+ rest
  | None =>
      match s with
      | EmptyString => EmptyString
      | String c s' => String c (replace pat by_ s')
      end
  end.

(** [s.replaceAll(pat, by)] for a non-empty string pattern: the scan
    resumes after each replaced occurrence. *)
Fixpoint replaceAll_fuel (fuel : nat) (pat by_ s : string) : string :=
  match fuel with
  | O => s
  | S fuel' =>
      match strip_prefix pat s with
      | Some rest => by_ +:+ replaceAll_fuel fuel' pat by_ rest
      | None =>
          match s with
          | EmptyString => EmptyString
          | String c s' => String c (replaceAll_fuel fuel' pat by_ s')
          end
      end
  end.
Definition replaceAll (pat by_ s : string) : string :=
  replaceAll_fuel (S (String.length s)) pat by_ s.

(** [arr.join(sep)] *)
Fixpoint join (sep : string) (l : list string) : string :=
  match l with
  | [] => EmptyString
  | [w] => w
  | w :: ws => w +:+ sep +:+ join sep ws
  end.

(** [parseInt(s)] without a radix: leading white space is skipped, a
    sign is read, [0x] or [0X] selects base 16, then the longest run
    of digits is taken; no digit at all gives [NaN]. White space is
    the white space of ASCII. *)
Definition is_space (c : ascii) : bool :=
  let n := nat_of_ascii c in
  (Nat.leb 9 n && Nat.leb n 13) || Nat.eqb n 32.

Fixpoint trim_start (s : string) : string :=
  match s with
  | String c s' => if is_space c then trim_start s' else s
  | EmptyString => EmptyString
  end.

Definition digit_value (c : ascii) : option Z :=
  let n := nat_of_ascii c in
  if Nat.leb 48 n && Nat.leb n 57 then Some (Z.of_nat (n - 48))
  else if Nat.leb 97 n && Nat.leb n 122 then Some (Z.of_nat (n - 87))
  else if Nat.leb 65 n && Nat.leb n 90 then Some (Z.of_nat (n - 55))
  else None.

Fixpoint digits (radix : Z) (s : string) (acc : option Z) : option Z :=
  match s with
  | EmptyString => acc
  | String c s' =>
      match digit_value c with
      | Some d =>
          if (d <? radix)%Z
          then digits radix s' (Some (radix * default 0%Z acc + d)%Z)
          else acc
      | None => acc
      end
  end.

Definition parseInt (s : string) : number :=
  let s1 := trim_start s in
  let '(sign, s2) :=
    match s1 with
    | String c r =>
        if ascii_eqb c "-" then ((-1)%Z, r)
        else if ascii_eqb c "+" then (1%Z, r)
        else (1%Z, s1)
    | EmptyString => (1%Z, s1)
    end in
  let '(radix, s3) :=
    match strip_prefix "0x" s2, strip_prefix "0X" s2 with
    | Some r, _ => (16%Z, r)
    | None, Some r => (16%Z, r)
    | None, None => (10%Z, s2)
    end in
  match digits radix s3 None with
  | Some v => Num (sign * v)
  | None => NaN
  end.

(** [encodeURIComponent(s)]: every character outside
    [A-Z a-z 0-9 - _ . ! ~ * ' ( )] becomes [%XX]. *)
Definition is_unreserved (c : ascii) : bool :=
  let n := nat_of_ascii c in
  (Nat.leb 65 n && Nat.leb n 90) || (Nat.leb 97 n && Nat.leb n 122)
  || (Nat.leb 48 n && Nat.leb n 57)
  || existsb (ascii_eqb c) ["-"; "_"; "."; "!"; "~"; "*"; "'"; "("; ")"]%char.

Definition hex_digit (n : nat) : ascii :=
  if Nat.ltb n 10 then ascii_of_nat (48 + n) else ascii_of_nat (55 + n).

Fixpoint encodeURIComponent (s : string) : string :=
  match s with
  | EmptyString => EmptyString
  | String c s' =>
      if is_unreserved c then String c (encodeURIComponent s')
      else
        let n := nat_of_ascii c in
        String "%" (String (hex_digit (n / 16)) (String (hex_digit (n mod 16))
          (encodeURIComponent s')))
  end.

(** *** Regular expressions

    The two patterns of the source are sequences of literals and greedy
    repetitions of a character class, with one capture group; matching
    backtracks from the longest repetition to the shortest. *)

Inductive atom : Type :=
  | Lit (s : string)
  | Rep (cls : ascii -> bool) (min : nat) (capture : bool).

Definition regexp := list atom.

Fixpoint greedy {R : Type} (cls : ascii -> bool) (min : nat) (s : string)
    (k : string -> string -> option R) : option R :=
  let stop := match min with O => k EmptyString s | S _ => None end in
  match s with
  | EmptyString => stop
  | String c s' =>
      if cls c then
        match greedy cls (Nat.pred min) s' (fun taken => k (String c taken)) with
        | Some r => Some r
        | None => stop
        end
      else stop
  end.

(** A match anchored at the start of [s]: the capture and what follows
    the match. *)
Fixpoint match_here (p : regexp) (s : string) (cap : string) : option (string * string) :=
  match p with
  | [] => Some (cap, s)
  | Lit l :: p' =>
      match strip_prefix l s with
      | Some rest => match_here p' rest cap
      | None => None
      end
  | Rep cls min capture :: p' =>
      greedy cls min s
        (fun taken rest => match_here p' rest (if capture then taken else cap))
  end.

(** [re.exec(s)]: the leftmost match. *)
Fixpoint exec (p : regexp) (s : string) : option (string * string) :=
  match match_here p s EmptyString with
  | Some r => Some r
  | None =>
      match s with
      | EmptyString => None
      | String _ s' => exec p s'
      end
  end.

(** [.] matches everything but a line terminator, [\s] white space. *)
Definition is_dot (c : ascii) : bool :=
  negb (ascii_eqb c LF || ascii_eqb c (ascii_of_nat 13)).

(** Every character of [s] is in the class. *)
Fixpoint every (cls : ascii -> bool) (s : string) : bool :=
  match s with
  | EmptyString => true
  | String c s' => cls c && every cls s'
  end.

End JS.

(** ** Data model *)

(** Modelled from the spec: the type declarations of [types.ts], which
    the two source files import. [OverpassOptions] has the five fields
    of the configuration surface; one record serves for the type and
    for [Partial<OverpassOptions>], a property that is absent being
    [None]. A property that is present holds a value of its type: an
    object with a property set to [undefined] is not a value of this
    record. *)
Record OverpassOptions : Type := mkOptions {
  endpoint : option string;
  numRetries : option JS.number;
  retryPause : option JS.number;
  verbose : option bool;
  userAgent : option string;
}.

(** Modelled from the spec: [OverpassApiStatus] of [types.ts], the
    capacity snapshot. The parser builds it property by property, so
    the three scalar properties may be absent. *)
Record OverpassApiStatus : Type := mkStatus {
  clientId : option string;
  currentTime : option JS.number;
  rateLimit : option JS.number;
  slotsRunning : list (list string);
  slotsAvailableAfter : list JS.number;
}.

(** The error classes of [overpass.ts], and the errors of the platform
    that the code can run into. *)
Inductive Error : Type :=
  | OverpassError (message : string)
  | OverpassRateLimitError
  | OverpassBadRequestError (query : string) (errors : list string)
  | OverpassGatewayTimeoutError
  | OverpassApiStatusError (message : string)
  | TypeError (message : string)
  | SyntaxError (message : string)
  | FetchError (message : string).

(** The values that [resp.json()] can give: the JSON values. In a decoded
    object every name occurs once. *)
#[warnings="-register-all"] Inductive Json : Type :=
  | JNull
  | JBool (b : bool)
  | JNumber (n : JS.number)
  | JString (s : string)
  | JArray (items : list Json)
  | JObject (props : list (string * Json)).

Fixpoint assoc (name : string) (props : list (string * Json)) : option Json :=
  match props with
  | [] => None
  | (k, v) :: rest => if String.eqb k name then Some v else assoc name rest
  end.

(** [json.remark]: reading a property of [null] throws; an object has
    the property or not; a boolean, a number, a string and an array have
    no property of that name. [None] is [undefined]. *)
Definition get_remark (json : Json) : Error + option Json :=
  match json with
  | JNull => inl (TypeError "Cannot read properties of null (reading 'remark')")
  | JObject props => inr (assoc "remark" props)
  | _ => inr None
  end.

(** [if (v)] of a value read from a decoded body *)
Definition Json_truthy (v : option Json) : bool :=
  match v with
  | None => false
  | Some JNull => false
  | Some (JBool b) => b
  | Some (JNumber n) => negb (JS.eq n (JS.Num 0)) && JS.eq n n
  | Some (JString s) => negb (String.eqb s EmptyString)
  | Some (JArray _) => true
  | Some (JObject _) => true
  end.

(** [`${v}`] of a value read from a decoded body: the elements of an
    array are joined with commas, [null] among them giving nothing. *)
Fixpoint Json_to_string (j : Json) : string :=
  match j with
  | JNull => "null"
  | JBool true => "true"
  | JBool false => "false"
  | JNumber n => JS.number_to_string n
  | JString s => s
  | JArray items =>
      JS.join ","
        (List.map (fun x => match x with
                            | JNull => EmptyString
                            | _ => Json_to_string x
                            end) items)
  | JObject _ => "[object Object]"
  end.

(** The second callback of [overpassJson] *)
Definition check_json_remark (json : Json) : Error + Json :=
  match get_remark json with
  | inl e => inl e
  | inr v =>
      if Json_truthy v then inl (OverpassError (default "undefined" (Json_to_string <$> v)))
      else inr json
  end.

(** What the code reads of a [Response]. *)
Record Response : Type := mkResponse {
  status : Z;
  statusText : string;
  content_type : option string;
  content_length : option string;
  text : string;
}.

(** [resp.ok]: the status is in the range 200-299. *)
Definition ok (resp : Response) : bool :=
  (200 <=? status resp)%Z && (status resp <=? 299)%Z.

Record RequestInit : Type := mkInit {
  body : string;
  method : string;
  mode : string;
  redirect : string;
  headers : list (string * string);
}.

Inductive FetchResult : Type :=
  | Resolved (resp : Response)
  | Rejected (reason : string).

(** Observable events, in the order they happen: [fetch(url, init)],
    [setTimeout(resolve, ms)] and [console.log(line)]. *)
Inductive Event : Type :=
  | EFetch (url : string) (init : option RequestInit)
  | ETimeout (ms : JS.number)
  | EConsole (line : string).

(** The object store: an object reference is an index, [{}] and object
    literals allocate at the end. *)
Definition loc := nat.

Record World : Type := mkWorld {
  heap : list OverpassOptions;
  trace : list Event;
}.

Inductive Outcome (A : Type) : Type :=
  | Val (a : A)
  | Throw (e : Error)
  | OutOfFuel.
Arguments Val {A} a.
Arguments Throw {A} e.
Arguments OutOfFuel {A}.

Definition M (A : Type) : Type := World -> Outcome A * World.

Definition ret {A} (a : A) : M A := fun w => (Val a, w).
Definition throw {A} (e : Error) : M A := fun w => (Throw e, w).
Definition out_of_fuel {A} : M A := fun w => (OutOfFuel, w).
Definition bind {A B} (m : M A) (k : A -> M B) : M B :=
  fun w =>
    match m w with
    | (Val a, w') => k a w'
    | (Throw e, w') => (Throw e, w')
    | (OutOfFuel, w') => (OutOfFuel, w')
    end.

Notation "x <- m ;; k" := (bind m (fun x => k))
  (at level 100, m at next level, right associativity).
Notation "m ;;; k" := (bind m (fun _ => k))
  (at level 100, right associativity).

Definition when (b : bool) (m : M unit) : M unit :=
  if b then m else ret tt.

Definition emit (e : Event) : M unit :=
  fun w => (Val tt, mkWorld (heap w) (trace w ++ [e])).

(** Either an error or a value, for the code that touches no state. *)
Definition lift {A} (r : Error + A) : M A :=
  match r with
  | inl e => throw e
  | inr a => ret a
  end.

(** *** Objects *)

Definition empty_object : OverpassOptions := mkOptions None None None None None.

(** An object reference always points into the store; for an index
    outside of it the model reads an object without properties. *)
Definition deref (l : loc) (w : World) : OverpassOptions :=
  default empty_object (heap w !! l).

(** [o.p] *)
Definition prop {A} (l : loc) (p : OverpassOptions -> option A) : M (option A) :=
  fun w => (Val (p (deref l w)), w).

(** An object literal: a new object at the end of the store. *)
Definition new_object (o : OverpassOptions) : M loc :=
  fun w => (Val (length (heap w)), mkWorld (heap w ++ [o]) (trace w)).

Definition override {A} (new old : option A) : option A :=
  match new with
  | Some _ => new
  | None => old
  end.

(** Copying the own properties of [src] onto [tgt]. *)
Definition copy_props (tgt src : OverpassOptions) : OverpassOptions :=
  mkOptions (override (endpoint src) (endpoint tgt))
            (override (numRetries src) (numRetries tgt))
            (override (retryPause src) (retryPause tgt))
            (override (verbose src) (verbose tgt))
            (override (userAgent src) (userAgent tgt)).

(** A source of [Object.assign]: a constant of the module, or an object
    of the store, read when its turn comes. *)
Inductive source : Type :=
  | Const (o : OverpassOptions)
  | Ref (l : loc).

Definition read_source (s : source) (w : World) : OverpassOptions :=
  match s with
  | Const o => o
  | Ref l => deref l w
  end.

(** [Object.assign(target, ...sources)]: the target is written in place
    and returned. *)
Fixpoint Object_assign (target : loc) (sources : list source) : M loc :=
  match sources with
  | [] => ret target
  | s :: rest =>
      fun w =>
        let o := copy_props (deref target w) (read_source s w) in
        Object_assign target rest (mkWorld (<[target := o]> (heap w)) (trace w))
  end.

(** [`${v}`] of a string property *)
Definition str (v : option string) : string := default "undefined" v.

(** [if (v)] of a boolean property *)
Definition truthy (v : option bool) : bool := default false v.


(** ** Counting requests *)

Definition is_fetch (e : Event) : bool :=
  match e with
  | EFetch _ _ => true
  | _ => false
  end.

(** A request that carries a body and headers is the POST of a query;
    the status request is a bare [fetch(url)]. *)
Definition is_post (e : Event) : bool :=
  match e with
  | EFetch _ (Some _) => true
  | _ => false
  end.

Definition is_timeout (e : Event) : bool :=
  match e with
  | ETimeout _ => true
  | _ => false
  end.

Definition requests (tr : list Event) : nat := length (List.filter is_fetch tr).
Definition posts (tr : list Event) : nat := length (List.filter is_post tr).
Definition timeouts (tr : list Event) : list Event := List.filter is_timeout tr.

(** ** Concrete services and callers

    A scripted service answers the n-th request with the n-th entry of
    its script, and drops the connection when the script is over. *)
Module Scenario.

Definition scripted (script : list FetchResult) (tr : list Event) : FetchResult :=
  default (Rejected "connection closed") (script !! (requests tr - 1)).

Definition reply (code : Z) (reason : string) (type : option string) (text : string)
    : FetchResult :=
  Resolved (mkResponse code reason type None text).

Definition too_many_requests : FetchResult :=
  reply 429 "Too Many Requests" None EmptyString.
Definition gateway_timeout : FetchResult :=
  reply 504 "Gateway Timeout" None EmptyString.
Definition success (text : string) : FetchResult :=
  reply 200 "OK" (Some "application/json") text.
Definition status_report (text : string) : FetchResult :=
  reply 200 "OK" (Some "text/plain; charset=utf-8") text.

(** The lines of [text], each ended by a line feed. *)
Fixpoint unlines (lines : list string) : string :=
  match lines with
  | [] => EmptyString
  | l :: rest => l +:+ String JS.LF (unlines rest)
  end.

(** A status report as the service prints it for a client that waits
    for its only slot. *)
Definition busy_report : string :=
  unlines ["Connected as: 1234567";
           "Current time: 2020-01-01T00:00:00Z";
           "Rate limit: 1";
           "Slot available after: 2020-01-01T00:00:05Z, in 5 seconds.";
           "Currently running queries (pid, space limit, time limit, start time):"].

(** A report without slot lines, running queries and final line feed. *)
Definition idle_report : string :=
  "Connected as: 1234567" +:+ String JS.LF "Rate limit: 0".

Definition idle_snapshot : OverpassApiStatus :=
  mkStatus (Some "1234567") None (Some (JS.Num 0)) [] [].

(** A body of the service whose query ran out of time. *)
Definition timed_out_body : string :=
  "<?xml version=1.0?>" +:+ String JS.LF
    ("<osm>" +:+ String JS.LF
       ("<remark> runtime error: Query timed out </remark>" +:+
        String JS.LF (String JS.LF ("</osm>" +:+ String JS.LF EmptyString)))).

(** The snapshot that report stands for: one running query, one slot
    free in five seconds. *)
Definition busy_snapshot : OverpassApiStatus :=
  mkStatus (Some "1234567") (Some JS.NaN) (Some (JS.Num 1))
           [["4321"; "536870912"; "180"; "2020-01-01T00:00:00Z"]]
           [JS.Num 5].

Definition main_endpoint : string := "//overpass-api.de/api/interpreter".
Definition no_date (s : string) : JS.number := JS.NaN.
Definition no_size (n : JS.number) : string := "?".

(** A caller that passes [{ numRetries: n }]. *)
Definition caller (n : Z) : World :=
  mkWorld [mkOptions None (Some (JS.Num n)) None None None] [].

(** A caller that passes [{ numRetries: Infinity }]. *)
Definition tireless_caller : World :=
  mkWorld [mkOptions None (Some (JS.Inf true)) None None None] [].

(** [resp.json()] on a body that starts with [<]: no JSON text does. *)
Definition no_json (resp : Response) : Error + Json :=
  inl (SyntaxError "Unexpected token < in JSON at position 0").

(** The decoded value of a body that is an object with no elements and
    the remark [r]. *)
Definition remarked (r : string) : Json :=
  JObject [("elements", JArray []); ("remark", JString r)].

(** A service that gives the same answer to every request. *)
Definition always (answer : FetchResult) (tr : list Event) : FetchResult := answer.

Definition bad_request : FetchResult :=
  reply 400 "Bad Request" (Some "text/html")
        "<p><strong style=c>Error</strong>: line 1: parse error: Unknown type </p>".

Definition teapot : FetchResult :=
  reply 418 "I'm a teapot" None EmptyString.

Definition html_page : FetchResult :=
  reply 200 "OK" (Some "text/html") "<html></html>".

(** A report without slot lines and final line feed, with a rate limit
    below zero. *)
Definition odd_report : string :=
  "Connected as: 1234567" +:+ String JS.LF "Rate limit: -1".

Definition odd_snapshot : OverpassApiStatus :=
  mkStatus (Some "1234567") None (Some (JS.Num (-1))) [] [].

Definition query : string := "node(1);out;".

End Scenario.
(** ** The program *)

Section Program.

(** [endpoints.main] of [endpoints.ts], the default service instance. *)
Variable endpoints_main : string.

(** [Date.parse], whose result depends on the platform. *)
Variable Date_parse : string -> JS.number.

(** [utils.humanReadableBytes]: it divides and rounds floating-point
    numbers and is used for one console line only; its result is taken
    as given. *)
Variable humanReadableBytes : JS.number -> string.

(** The remote service and the network: the outcome of a [fetch], given
    every event up to and including that request. *)
Variable server : list Event -> FetchResult.

(** [resp.json()]: the decoded body, or the error of the decoder. *)
Variable Response_json : Response -> Error + Json.

(** *** utils.ts *)

(** [fetch(url, init)] *)
Definition fetch (url : string) (init : option RequestInit) : M Response :=
  fun w =>
    let tr := trace w ++ [EFetch url init] in
    match server tr with
    | Resolved resp => (Val resp, mkWorld (heap w) tr)
    | Rejected reason => (Throw (FetchError reason), mkWorld (heap w) tr)
    end.

(** The loop [while ((match = regex.exec(string))) matches.push(match[1])]
    over a global pattern; every match of the patterns used here takes
    at least one character, which bounds the number of rounds. *)
Fixpoint matchAll_rounds (rounds : nat) (regex : JS.regexp) (s : string) : list string :=
  match rounds with
  | O => []
  | S rounds' =>
      match JS.exec regex s with
      | Some (m1, rest) => m1 :: matchAll_rounds rounds' regex rest
      | None => []
      end
  end.
Definition matchAll (regex : JS.regexp) (s : string) : list string :=
  matchAll_rounds (S (String.length s)) regex s.

Definition sleep (ms : JS.number) : M unit := emit (ETimeout ms).

Definition consoleMsg (msg : string) : M unit :=
  emit (EConsole ("Overpass: " +:+ msg)).

(** [Object.assign({}, opts, { numRetries: opts.numRetries - 1 })] *)
Definition oneLessRetry (opts : loc) : M loc :=
  target <- new_object empty_object ;;
  n <- prop opts numRetries ;;
  less <- new_object
    (mkOptions None (Some (JS.sub (JS.ToNumber n) (JS.Num 1))) None None None) ;;
  Object_assign target [Ref opts; Ref less].

(** A method call [arr.name(x)] on a native array: [push] appends;
    a name that [Array.prototype] does not have reads as [undefined],
    and calling it throws. *)
Definition array_call {A} (name : string) (arr : list A) (x : A) : Error + list A :=
  if String.eqb name "push" then inr (arr ++ [x])
  else inl (TypeError (name +:+ " is not a function")).

(** The body of the [forEach] callback of [parseApiStatus]. *)
Definition parseApiStatus_line (st : OverpassApiStatus) (statusLine : string)
    : Error + OverpassApiStatus :=
  let lineFirstWord := JS.first (JS.split JS.SP statusLine) in
  if String.eqb lineFirstWord "Connected" then
    inr (mkStatus (Some (JS.slice 14 None statusLine)) (currentTime st)
           (rateLimit st) (slotsRunning st) (slotsAvailableAfter st))
  else if String.eqb lineFirstWord "Current" then
    inr (mkStatus (clientId st) (Some (Date_parse (JS.slice 14 None statusLine)))
           (rateLimit st) (slotsRunning st) (slotsAvailableAfter st))
  else if String.eqb lineFirstWord "Rate" then
    inr (mkStatus (clientId st) (currentTime st)
           (Some (JS.parseInt (JS.slice 12 None statusLine)))
           (slotsRunning st) (slotsAvailableAfter st))
  else if String.eqb lineFirstWord "Slot" then
    match array_call "append" (slotsAvailableAfter st)
            (JS.parseInt (JS.first (JS.split JS.SP (JS.slice 47 None statusLine)))) with
    | inl e => inl e
    | inr arr =>
        inr (mkStatus (clientId st) (currentTime st) (rateLimit st)
               (slotsRunning st) arr)
    end
  else if negb (String.eqb lineFirstWord "Currently")
          && negb (JS.includes "available" statusLine) then
    match array_call "append" (slotsRunning st) (JS.split JS.TAB statusLine) with
    | inl e => inl e
    | inr arr =>
        inr (mkStatus (clientId st) (currentTime st) (rateLimit st)
               arr (slotsAvailableAfter st))
    end
  else inr st.

(** [lines.forEach(callback)] on the status object: an error thrown by
    the callback ends the loop. *)
Fixpoint forEach_line (lines : list string) (st : OverpassApiStatus)
    : Error + OverpassApiStatus :=
  match lines with
  | [] => inr st
  | statusLine :: rest =>
      match parseApiStatus_line st statusLine with
      | inl e => inl e
      | inr st' => forEach_line rest st'
      end
  end.

Definition parseApiStatus (statusHtml : string) : Error + OverpassApiStatus :=
  forEach_line (JS.split JS.LF statusHtml) (mkStatus None None None [] []).

(** *** overpass.ts *)

Definition defaultOpts : OverpassOptions :=
  mkOptions (Some endpoints_main) (Some (JS.Num 1)) (Some (JS.Num 2000))
            (Some false) (Some "overpass-ts").

(** [/<\/strong>: ([^<]+) <\/p>/g] *)
Definition bad_request_regex : JS.regexp :=
  [JS.Lit "</strong>: ";
   JS.Rep (fun c => negb (JS.ascii_eqb c "<")) 1 true;
   JS.Lit " </p>"].

(** [/<remark>\s*(.+)\s*<\/remark>/] *)
Definition remark_regex : JS.regexp :=
  [JS.Lit "<remark>";
   JS.Rep JS.is_space 0 false;
   JS.Rep JS.is_dot 1 true;
   JS.Rep JS.is_space 0 false;
   JS.Lit "</remark>"].

Definition QUOTE : string := String (ascii_of_nat 34) EmptyString.

(** [apiStatus(endpoint)]; the argument is the [endpoint] property as
    read, and [endpoint.replace] of [undefined] throws. *)
Definition apiStatus (endpoint : option string) : M OverpassApiStatus :=
  match endpoint with
  | None => throw (TypeError "Cannot read properties of undefined (reading 'replace')")
  | Some e =>
      resp <- fetch (JS.replace "/interpreter" "/status" e) None ;;
      let responseType := content_type resp in
      if match responseType with
         | None => true
         | Some t =>
             String.eqb t EmptyString
             || negb (String.eqb (JS.first (JS.split ";" t)) "text/plain")
         end
      then throw (OverpassApiStatusError
                    ("Response type incorrect (" +:+ default "null" responseType +:+ ")"))
      else
        let statusHtml := text resp in
        apiStatus <- lift (parseApiStatus statusHtml) ;;
        if negb (bool_decide (is_Some (clientId apiStatus)))
        then throw (OverpassApiStatusError "Unable to parse API Status")
        else ret apiStatus
  end.

(** The decision of the 429 branch, [rateLimit > slotsAvailableAfter.length
    + slotsRunning.length || rateLimit == 0]. *)
Definition retry_now (apiStatus : OverpassApiStatus) : bool :=
  JS.gt (JS.ToNumber (rateLimit apiStatus))
        (JS.Num (Z.of_nat (length (slotsAvailableAfter apiStatus)
                           + length (slotsRunning apiStatus))))
  || JS.eq (JS.ToNumber (rateLimit apiStatus)) (JS.Num 0).

(** [Math.min(0, ...apiStatus.slotsAvailableAfter) + 1] *)
Definition lowestWaitTime (apiStatus : OverpassApiStatus) : JS.number :=
  JS.add (JS.Math_min (JS.Num 0) (slotsAvailableAfter apiStatus)) (JS.Num 1).

(** The callback that receives the status in the 429 branch; [retry] is
    [overpass(query, utils.oneLessRetry(opts))]. *)
Definition on_apiStatus (retry : M Response) (opts : loc)
    (apiStatus : OverpassApiStatus) : M Response :=
  if retry_now apiStatus then retry
  else
    v <- prop opts verbose ;;
    when (truthy v)
      (consoleMsg ("waiting " +:+ JS.number_to_string (lowestWaitTime apiStatus)
                   +:+ "s for rate limit end")) ;;;
    sleep (JS.mul (lowestWaitTime apiStatus) (JS.Num 1000)) ;;;
    retry.

(** The callback of [fetch(opts.endpoint, fetchOpts).then], which
    classifies the response; [retry] is
    [overpass(query, utils.oneLessRetry(opts))]. *)
Definition on_response (retry : M Response) (query : string) (opts : loc)
    (resp : Response) : M Response :=
  if negb (ok resp) then
    if (status resp =? 400)%Z then
      let errors :=
        map (JS.replaceAll "&quot;" QUOTE)
            (matchAll bad_request_regex (text resp)) in
      throw (OverpassBadRequestError query errors)
    else if (status resp =? 429)%Z then
      n <- prop opts numRetries ;;
      if JS.eq (JS.ToNumber n) (JS.Num 0) then throw OverpassRateLimitError
      else
        e <- prop opts endpoint ;;
        apiStatus <- apiStatus e ;;
        on_apiStatus retry opts apiStatus
    else if (status resp =? 504)%Z then
      n <- prop opts numRetries ;;
      if JS.eq (JS.ToNumber n) (JS.Num 0) then throw OverpassGatewayTimeoutError
      else
        p <- prop opts retryPause ;;
        sleep (JS.ToNumber p) ;;;
        retry
    else
      throw (OverpassError
               (JS.number_to_string (JS.Num (status resp)) +:+ " " +:+ statusText resp))
  else
    v <- prop opts verbose ;;
    when (truthy v && bool_decide (is_Some (content_length resp)))
      (consoleMsg ("response payload " +:+
         humanReadableBytes (JS.parseInt (default EmptyString (content_length resp))))) ;;;
    ret resp.

(** [const opts = Object.assign({}, defaultOpts, overpassOpts)] *)
Definition merge_options (overpassOpts : loc) : M loc :=
  target <- new_object empty_object ;;
  Object_assign target [Const defaultOpts; Ref overpassOpts].

Definition fetchOpts (query : string) (userAgent : option string) : RequestInit :=
  mkInit ("data=" +:+ JS.encodeURIComponent query) "POST" "cors" "follow"
         [("Accept", "*"); ("User-Agent", str userAgent)].

(** [overpass(query, overpassOpts)]. The function calls itself on a
    retry; [fuel] bounds the depth of these calls. *)
Fixpoint overpass (fuel : nat) (query : string) (overpassOpts : loc) : M Response :=
  match fuel with
  | O => out_of_fuel
  | S fuel' =>
      opts <- merge_options overpassOpts ;;
      v <- prop opts verbose ;;
      when (truthy v)
        (e <- prop opts endpoint ;;
         consoleMsg ("endpoint " +:+ str e) ;;;
         consoleMsg ("query " +:+ query)) ;;;
      ua <- prop opts userAgent ;;
      e <- prop opts endpoint ;;
      resp <- fetch (str e) (Some (fetchOpts query ua)) ;;
      on_response (less <- oneLessRetry opts ;; overpass fuel' query less)
                  query opts resp
  end.

(** [overpassJson]: the decoded body, unless it has a truthy [remark]. *)
Definition overpassJson (fuel : nat) (query : string) (opts : loc) : M Json :=
  resp <- overpass fuel query opts ;;
  json <- lift (Response_json resp) ;;
  lift (check_json_remark json).

(** The loop [for (let i = textLines.length - 4; i > 0; i--)] of
    [overpassXml]; [i] stays below the number of lines. *)
Fixpoint collect_remarks (textLines : list string) (i : nat) : list string :=
  match i with
  | O => []
  | S i' =>
      match textLines !! i with
      | Some line =>
          match JS.exec remark_regex line with
          | Some (r1, _) => r1 :: collect_remarks textLines i'
          | None => []
          end
      | None => []
      end
  end.

(** The second callback of [overpassXml], on the text of the body. *)
Definition check_xml_remark (text : string) : Error + string :=
  if String.eqb (JS.slice (-18) (Some (-9)%Z) text) "</remark>" then
    let textLines := JS.split JS.LF text in
    let errors := collect_remarks textLines (length textLines - 4) in
    inl (OverpassError (JS.join ", " errors))
  else inr text.

Definition overpassXml (fuel : nat) (query : string) (opts : loc) : M string :=
  resp <- overpass fuel query opts ;;
  lift (check_xml_remark (text resp)).

Definition overpassCsv (fuel : nat) (query : string) (opts : loc) : M string :=
  resp <- overpass fuel query opts ;;
  ret (text resp).

(** The message an error object carries. *)
Definition Error_message (e : Error) : string :=
  match e with
  | OverpassError m => "Overpass Error: " +:+ m
  | OverpassRateLimitError => "Overpass Error: 429 Rate Limit Exceeded"
  | OverpassBadRequestError q errs =>
      "Overpass Error: 400 Bad Request" +:+ String JS.LF "Errors: "
      +:+ JS.join (String JS.LF EmptyString) errs
      +:+ String JS.LF "Query: " +:+ q
  | OverpassGatewayTimeoutError => "Overpass Error: 504 Gateway Timeout"
  | OverpassApiStatusError m => "Overpass Error: API Status error: " +:+ m
  | TypeError m => m
  | SyntaxError m => m
  | FetchError m => m
  end.

(** *** The decision functions in the words of the specification *)

(** [rateLimit == 0 || rateLimit > len(slotsRunning) + len(slotsAvailableAfter)] *)
Definition shouldRetryImmediately (snapshot : OverpassApiStatus) : bool :=
  JS.eq (JS.ToNumber (rateLimit snapshot)) (JS.Num 0)
  || JS.gt (JS.ToNumber (rateLimit snapshot))
           (JS.Num (Z.of_nat (length (slotsRunning snapshot)
                              + length (slotsAvailableAfter snapshot)))).

(** [max(0, min(slotsAvailableAfter)) + 1], for a list that is not empty *)
Definition waitSeconds (first : JS.number) (others : list JS.number) : JS.number :=
  JS.add (JS.max2 (JS.Num 0) (JS.Math_min first others)) (JS.Num 1).

(** The endpoint with its trailing [/interpreter] replaced by [/status]. *)
Fixpoint replace_trailing_segment (endpoint : string) : string :=
  if String.eqb endpoint "/interpreter" then "/status"
  else match endpoint with
       | EmptyString => EmptyString
       | String c rest => String c (replace_trailing_segment rest)
       end.

(** A body that holds a [<remark>] element. *)
Definition embeds_remark (text : string) : bool :=
  match JS.exec [JS.Lit "<remark>"] text with
  | Some (_, rest) => JS.includes "</remark>" rest
  | None => false
  end.

(** *** One invocation of [overpass] *)

(** The properties of [opts] in an invocation that received [overpassOpts]. *)
Definition current_options (overpassOpts : loc) (w : World) : OverpassOptions :=
  copy_props (copy_props empty_object defaultOpts) (deref overpassOpts w).

(** The two console lines of a verbose invocation. *)
Definition announce (o : OverpassOptions) (query : string) : list Event :=
  if truthy (verbose o)
  then [EConsole ("Overpass: endpoint " +:+ str (endpoint o));
        EConsole ("Overpass: query " +:+ query)]
  else [].

Definition post_request (o : OverpassOptions) (query : string) : Event :=
  EFetch (str (endpoint o)) (Some (fetchOpts query (userAgent o))).

(** The world when the POST of an invocation has been sent: [opts] is
    the one new object. *)
Definition posted (query : string) (overpassOpts : loc) (w : World) : World :=
  let o := current_options overpassOpts w in
  mkWorld (heap w ++ [o]) (trace w ++ announce o query ++ [post_request o query]).

(** The options with one retry less. *)
Definition decremented (o : OverpassOptions) : OverpassOptions :=
  mkOptions (endpoint o) (Some (JS.sub (JS.ToNumber (numRetries o)) (JS.Num 1)))
            (retryPause o) (verbose o) (userAgent o).

(** The object literal of [oneLessRetry]. *)
Definition one_less_literal (o : OverpassOptions) : OverpassOptions :=
  mkOptions None (Some (JS.sub (JS.ToNumber (numRetries o)) (JS.Num 1))) None None None.

(** [w'] differs from [w] by events that are no POST: no object was
    allocated or written. *)
Definition quiet (w w' : World) : Prop :=
  heap w' = heap w /\ exists ts, trace w' = trace w ++ ts /\ posts ts = 0.

(** *** The status parser and the status fetch, case by case *)

(** The lines on which [parseApiStatus] calls [append]: a [Slot] line,
    and every line that is neither one of the three scalar lines, nor
    the [Currently] header, nor a line that contains [available]. *)
Definition appends (statusLine : string) : bool :=
  let lineFirstWord := JS.first (JS.split JS.SP statusLine) in
  negb (String.eqb lineFirstWord "Connected")
  && negb (String.eqb lineFirstWord "Current")
  && negb (String.eqb lineFirstWord "Rate")
  && (String.eqb lineFirstWord "Slot"
      || negb (String.eqb lineFirstWord "Currently")
         && negb (JS.includes "available" statusLine)).

(** The declared content type, parameters stripped, is [text/plain]. *)
Definition is_text_plain (resp : Response) : bool :=
  match content_type resp with
  | Some t => String.eqb (JS.first (JS.split ";" t)) "text/plain"
  | None => false
  end.

(** The world when the status request for [endpoint] has been sent. *)
Definition status_requested (endpoint : string) (w : World) : World :=
  mkWorld (heap w)
          (trace w ++ [EFetch (JS.replace "/interpreter" "/status" endpoint) None]).

(** What follows the last [</remark>] in a body of the service: an
    empty line and the closing tag, nine characters. *)
Definition osm_end : string :=
  String JS.LF (String JS.LF ("</osm>" +:+ String JS.LF EmptyString)).

(** A body of the service that ends with a remark: some lines, the
    remark line, and the end. *)
Definition remark_body (pre msg : string) : string :=
  pre +:+ String JS.LF ("<remark> " +:+ msg +:+ " </remark>" +:+ osm_end).

(** *** Budgets that never reach zero *)

(** A value of [numRetries] from which [- 1] never leads to [0]: a
    negative number, an infinity, or [NaN]. *)
Definition never_zero (n : JS.number) : Prop :=
  match n with
  | JS.NaN => True
  | JS.Num z => (z < 0)%Z
  | JS.Inf _ => True
  end.

(** The console line of a successful verbose call, if there is one. *)
Definition payload_line (o : OverpassOptions) (resp : Response) : list Event :=
  if truthy (verbose o) && bool_decide (is_Some (content_length resp))
  then [EConsole ("Overpass: response payload " +:+
          humanReadableBytes (JS.parseInt (default EmptyString (content_length resp))))]
  else [].

(** A line whose first word is [Connected]. *)
Definition is_connected (statusLine : string) : bool :=
  String.eqb (JS.first (JS.split JS.SP statusLine)) "Connected".

(** *** The events of a call *)

(** The events that a call with the options [o] and the query [q] may
    cause: its POST, the status request for its endpoint, a timer of
    [retryPause] or of one second, and, when verbose, console lines
    with the prefix of [consoleMsg]. *)
Definition event_ok (o : OverpassOptions) (q : string) (e : Event) : Prop :=
  match e with
  | EFetch _ (Some _) => e = post_request o q
  | EFetch url None => url = JS.replace "/interpreter" "/status" (str (endpoint o))
  | ETimeout ms => ms = JS.ToNumber (retryPause o) \/ ms = JS.Num 1000
  | EConsole line => truthy (verbose o) = true /\ exists m, line = "Overpass: " +:+ m
  end.

Definition is_console (e : Event) : bool :=
  match e with
  | EConsole _ => true
  | _ => false
  end.

(** *** Bodies with several remarks *)

Definition LINE_FEED : string := String JS.LF EmptyString.

(** A line without line feed. *)
Definition one_line (s : string) : bool :=
  JS.every (fun c => negb (JS.ascii_eqb c JS.LF)) s.

(** The line of the service for a remark. *)
Definition remark_line (msg : string) : string :=
  "<remark> " +:+ msg +:+ " </remark>".

(** A message as the service writes it: not empty, no white space in
    front, no line terminator. *)
Definition plain_message (msg : string) : bool :=
  match msg with
  | String c _ => negb (JS.is_space c) && JS.every JS.is_dot msg
  | EmptyString => false
  end.

(** The character class [[^<]]. *)
Definition not_lt (c : ascii) : bool := negb (JS.ascii_eqb c "<").

(** The fragment of a 400 body that carries one message. *)
Definition error_fragment (msg : string) : string :=
  "</strong>: " +:+ msg +:+ " </p>".

(** A word: no space in it. *)
Definition one_word (s : string) : bool :=
  JS.every (fun c => negb (JS.ascii_eqb c JS.SP)) s.

(** The console line before the wait of the 429 branch, for a verbose
    call. *)
Definition waiting_line (o : OverpassOptions) : list Event :=
  if truthy (verbose o)
  then [EConsole "Overpass: waiting 1s for rate limit end"]
  else [].

(** The events between the status callback and a delayed retry: the
    console line of a verbose call, and the timer. *)
Definition wait_events (o : OverpassOptions) (st : OverpassApiStatus) : list Event :=
  (if truthy (verbose o)
   then [EConsole ("Overpass: " +:+ "waiting "
           +:+ JS.number_to_string (lowestWaitTime st) +:+ "s for rate limit end")]
   else [])
  ++ [ETimeout (JS.mul (lowestWaitTime st) (JS.Num 1000))].

(** ** Properties *)

(** *** The object store *)

Lemma deref_heap l w w' : heap w = heap w' -> deref l w = deref l w'.
Proof. unfold deref. by intros ->. Qed.

Lemma deref_new h tr o more : deref (length h) (mkWorld (h ++ o :: more) tr) = o.
Proof. unfold deref. cbn. by rewrite list_lookup_middle. Qed.

Lemma deref_old l h tr more :
  l < length h -> deref l (mkWorld (h ++ more) tr) = default empty_object (h !! l).
Proof. intros Hl. unfold deref. cbn. by rewrite lookup_app_l. Qed.

Lemma deref_dangling l w : length (heap w) <= l -> deref l w = empty_object.
Proof. intros Hl. unfold deref. by rewrite lookup_ge_None_2. Qed.

Lemma insert_last (h : list OverpassOptions) o o' :
  <[length h := o']> (h ++ [o]) = h ++ [o'].
Proof.
  rewrite insert_app_r_alt by lia. by rewrite Nat.sub_diag.
Qed.

Lemma insert_last_but_one (h : list OverpassOptions) o o' x :
  <[length h := o']> (h ++ [o; x]) = h ++ [o'; x].
Proof.
  rewrite insert_app_r_alt by lia. by rewrite Nat.sub_diag.
Qed.

Lemma copy_props_empty o : copy_props o empty_object = o.
Proof. by destruct o. Qed.

Lemma copy_props_idem o : copy_props o o = o.
Proof. destruct o as [[] [] [] [] []]; reflexivity. Qed.

(** [Object.assign({}, defaultOpts, overpassOpts)] allocates one object
    and writes nowhere else. *)
Lemma merge_options_eq l w :
  merge_options l w
  = (Val (length (heap w)), mkWorld (heap w ++ [current_options l w]) (trace w)).
Proof.
  unfold merge_options, bind, new_object. cbn.
  rewrite deref_new, insert_last. cbn.
  rewrite deref_new, insert_last. unfold ret, current_options.
  do 3 f_equal.
  set (o1 := copy_props empty_object defaultOpts).
  destruct (decide (l < length (heap w))) as [Hlt|Hge].
  - rewrite deref_old by done. reflexivity.
  - destruct (decide (l = length (heap w))) as [->|Hne].
    + rewrite deref_new, (deref_dangling _ w) by lia.
      by rewrite copy_props_idem, copy_props_empty.
    + rewrite !deref_dangling; [done | lia |].
      cbn. rewrite length_app. cbn. lia.
Qed.

Lemma copy_props_onto_empty o : copy_props empty_object o = o.
Proof. by destruct o as [[] [] [] [] []]. Qed.

Lemma copy_literal o : copy_props o (one_less_literal o) = decremented o.
Proof. by destruct o. Qed.

(** [oneLessRetry] allocates the copy and the literal, and writes
    nowhere else. *)
Lemma oneLessRetry_eq l w :
  oneLessRetry l w
  = (Val (length (heap w)),
     mkWorld (heap w ++ [decremented (deref l w); one_less_literal (deref l w)])
             (trace w)).
Proof.
  unfold oneLessRetry, bind, new_object, prop. cbn.
  set (h := heap w).
  assert (Hn : deref l (mkWorld (h ++ [empty_object]) (trace w)) = deref l w
               \/ (length h <= l /\ deref l w = empty_object
                   /\ deref l (mkWorld (h ++ [empty_object]) (trace w)) = empty_object)).
  { destruct (decide (l < length h)) as [Hlt|Hge].
    - left. by rewrite deref_old.
    - right. split; [lia|]. split; [apply deref_dangling; subst h; lia|].
      destruct (decide (l = length h)) as [->|Hne].
      + by rewrite deref_new.
      + apply deref_dangling. cbn. rewrite length_app. cbn. lia. }
  assert (Hnum : numRetries (deref l (mkWorld (h ++ [empty_object]) (trace w)))
                 = numRetries (deref l w)).
  { destruct Hn as [->|(_ & -> & ->)]; done. }
  rewrite Hnum.
  replace (length (h ++ [empty_object])) with (S (length h))
    by (rewrite length_app; cbn; lia).
  rewrite <- app_assoc. cbn.
  rewrite deref_new, insert_last_but_one. cbn.
  rewrite deref_new, insert_last_but_one. unfold ret. do 3 f_equal.
  fold (one_less_literal (deref l w)).
  set (lit := one_less_literal (deref l w)).
  assert (Hless : deref (S (length h))
            (mkWorld
               (h ++ [copy_props empty_object
                        (deref l (mkWorld (h ++ [empty_object; lit]) (trace w))); lit])
               (trace w)) = lit).
  { unfold deref. cbn. rewrite lookup_app_r by lia.
    by replace (S (length h) - length h) with 1 by lia. }
  rewrite Hless. f_equal.
  rewrite copy_props_onto_empty.
  destruct (decide (l < length h)) as [Hlt|Hge].
  - rewrite deref_old by done. subst lit. rewrite <- copy_literal. f_equal.
  - assert (He : deref l w = empty_object) by (apply deref_dangling; subst h; lia).
    subst lit. rewrite He.
    destruct (decide (l = length h)) as [->|Hne]; [by rewrite deref_new|].
    destruct (decide (l = S (length h))) as [->|Hne'].
    + unfold deref. cbn. rewrite lookup_app_r by lia.
      by replace (S (length h) - length h) with 1 by lia.
    + rewrite deref_dangling; [done|]. cbn. rewrite length_app. cbn. lia.
Qed.

(** *** One invocation *)

Lemma overpass_S fuel q l w :
  overpass (S fuel) q l w
  = match server (trace (posted q l w)) with
    | Resolved resp =>
        on_response (less <- oneLessRetry (length (heap w)) ;; overpass fuel q less)
                    q (length (heap w)) resp (posted q l w)
    | Rejected reason => (Throw (FetchError reason), posted q l w)
    end.
Proof.
  cbn [overpass]. unfold bind at 1. rewrite merge_options_eq.
  unfold bind, prop, posted, announce. rewrite !deref_new.
  set (o := current_options l w).
  destruct (truthy (verbose o)); cbn.
  - rewrite !deref_new. unfold fetch. cbn.
    rewrite <- !app_assoc. cbn.
    unfold post_request. destruct (server _); reflexivity.
  - rewrite !deref_new. unfold fetch. cbn.
    unfold post_request. destruct (server _); reflexivity.
Qed.

Lemma posts_app a b : posts (a ++ b) = posts a + posts b.
Proof. unfold posts. by rewrite List.filter_app, length_app. Qed.

Lemma requests_app a b : requests (a ++ b) = requests a + requests b.
Proof. unfold requests. by rewrite List.filter_app, length_app. Qed.

Lemma quiet_refl w : quiet w w.
Proof. split; [done|]. exists []. by rewrite app_nil_r. Qed.

Lemma quiet_trans w1 w2 w3 : quiet w1 w2 -> quiet w2 w3 -> quiet w1 w3.
Proof.
  intros [H1 (t1 & E1 & P1)] [H2 (t2 & E2 & P2)]. split; [congruence|].
  exists (t1 ++ t2). rewrite E2, E1, app_assoc, posts_app. split; [done | lia].
Qed.

Lemma quiet_emit w e : is_post e = false -> quiet w (mkWorld (heap w) (trace w ++ [e])).
Proof.
  intros He. split; [done|]. exists [e]. split; [done|].
  unfold posts. cbn. by rewrite He.
Qed.

(** The status fetch writes no object and sends no POST, and it ends. *)
Lemma apiStatus_quiet e w :
  exists r w', apiStatus e w = (r, w') /\ r <> OutOfFuel /\ quiet w w'.
Proof.
  destruct e as [e|]; cbn.
  2:{ eexists _, _. split; [reflexivity|]. split; [done | apply quiet_refl]. }
  unfold bind, fetch.
  assert (Hq : quiet w (mkWorld (heap w)
            (trace w ++ [EFetch (JS.replace "/interpreter" "/status" e) None])))
    by (by apply quiet_emit).
  destruct (server _) as [resp|reason].
  2:{ eexists _, _. split; [reflexivity|]. by split. }
  destruct (match content_type resp with Some _ => _ | None => _ end).
  { eexists _, _. split; [reflexivity|]. by split. }
  destruct (parseApiStatus (text resp)) as [err|st]; cbn.
  { eexists _, _. split; [reflexivity|]. by split. }
  destruct (negb _); eexists _, _; (split; [reflexivity|]); by split.
Qed.

(** The status callback either goes on to [retry], after events that
    are no POST, or never happens. *)
Lemma on_apiStatus_retry retry opts st w :
  exists w', on_apiStatus retry opts st w = retry w' /\ quiet w w'.
Proof.
  unfold on_apiStatus. destruct (retry_now st).
  { exists w. split; [done | apply quiet_refl]. }
  unfold bind, prop, when, sleep, consoleMsg, emit, ret. cbn.
  destruct (truthy _); cbn.
  - eexists. split; [reflexivity|].
    eapply quiet_trans; [apply quiet_emit | apply (quiet_emit (mkWorld _ _))]; done.
  - eexists. split; [reflexivity|]. by apply quiet_emit.
Qed.

(** The response callback either ends the call in this invocation or
    goes on to [retry]; the latter only for a 429 or a 504 with a budget
    that is not zero. *)
Lemma on_response_cases retry q opts resp w :
  (exists r w', on_response retry q opts resp w = (r, w')
                /\ r <> OutOfFuel /\ quiet w w')
  \/ (exists w', on_response retry q opts resp w = retry w' /\ quiet w w'
                 /\ JS.eq (JS.ToNumber (numRetries (deref opts w))) (JS.Num 0) = false
                 /\ (status resp = 429%Z \/ status resp = 504%Z)).
Proof.
  remember (on_response retry q opts resp w) as R eqn:HR.
  unfold on_response in HR.
  destruct (negb (ok resp)).
  2:{ left. unfold bind, prop, when, consoleMsg, emit, ret in HR. cbn in HR.
      destruct (_ && _); eexists _, _; (split; [exact HR|]); (split; [done|]).
      - by apply quiet_emit.
      - apply quiet_refl. }
  destruct (status resp =? 400)%Z.
  { left. eexists _, _. split; [exact HR|]. split; [done | apply quiet_refl]. }
  destruct (Z.eqb_spec (status resp) 429) as [E429|_].
  { unfold bind at 1 in HR. unfold prop at 1 in HR.
    destruct (JS.eq _ _) eqn:Hz.
    { left. eexists _, _. split; [exact HR|]. split; [done | apply quiet_refl]. }
    unfold bind at 1 in HR. unfold prop at 1 in HR. unfold bind in HR.
    destruct (apiStatus_quiet (endpoint (deref opts w)) w) as (r & w1 & E & Hr & Hq).
    rewrite E in HR. destruct r as [st|err|]; [| |done].
    - destruct (on_apiStatus_retry retry opts st w1) as (w2 & E2 & Hq2).
      right. exists w2. split; [by rewrite HR|]. split; [by eapply quiet_trans|].
      split; [done | by left].
    - left. eexists _, _. split; [exact HR|]. by split. }
  destruct (Z.eqb_spec (status resp) 504) as [E504|_].
  { unfold bind at 1 in HR. unfold prop at 1 in HR.
    destruct (JS.eq _ _) eqn:Hz.
    { left. eexists _, _. split; [exact HR|]. split; [done | apply quiet_refl]. }
    right. unfold bind, prop, sleep, emit in HR. cbn in HR.
    eexists. split; [exact HR|]. split; [by apply quiet_emit|].
    split; [done | by right]. }
  left. eexists _, _. split; [exact HR|]. split; [done | apply quiet_refl].
Qed.

Lemma posts_posted o q : posts (announce o q ++ [post_request o q]) = 1.
Proof. unfold announce. by destruct (truthy _). Qed.

Lemma deref_opts_after q l w w' :
  heap w' = heap (posted q l w) ->
  deref (length (heap w)) w' = current_options l w.
Proof.
  intros Hh. rewrite (deref_heap _ w' (posted q l w)) by done.
  unfold posted. apply deref_new.
Qed.

(** The options of the invocation that a retry starts. *)
Lemma current_options_retry o h tr :
  numRetries
    (current_options (length h)
       (mkWorld (h ++ [decremented o; one_less_literal o]) tr))
  = Some (JS.sub (JS.ToNumber (numRetries o)) (JS.Num 1)).
Proof. unfold current_options. by rewrite deref_new. Qed.

Lemma overpass_budget (n : nat) :
  forall fuel q l w,
    numRetries (current_options l w) = Some (JS.Num (Z.of_nat n)) ->
    n < fuel ->
    exists r hs ts,
      overpass fuel q l w = (r, mkWorld (heap w ++ hs) (trace w ++ ts))
      /\ r <> OutOfFuel /\ posts ts <= S n.
Proof.
  induction n as [|n IH]; intros fuel q l w Hn Hfuel;
    (destruct fuel as [|fuel]; [lia|]); rewrite overpass_S;
    pose proof (posts_posted (current_options l w) q) as Hp.
  all: destruct (server _) as [resp|reason];
    [| exists (Throw (FetchError reason)); eexists _, _;
       split; [reflexivity|]; split; [done | lia]].
  all: destruct (on_response_cases
         (less <- oneLessRetry (length (heap w)) ;; overpass fuel q less)
         q (length (heap w)) resp (posted q l w))
         as [(r & w' & E & Hr & Hh & ts & Ht & Hts) | (w' & E & [Hh (ts & Ht & Hts)] & Hz & _)].
  1,3: rewrite E; destruct w' as [h' t']; cbn in Hh, Ht; subst h' t';
    exists r; eexists _, _; rewrite <- app_assoc;
    split; [reflexivity|]; split; [done|]; rewrite posts_app; lia.
  - rewrite (deref_opts_after q l w) in Hz by done. by rewrite Hn in Hz.
  - rewrite E. unfold bind. rewrite oneLessRetry_eq.
    rewrite (deref_opts_after q l w w') by done.
    destruct w' as [h' t']. cbn in Hh, Ht. subst h' t'. cbn [heap trace].
    set (o := current_options l w) in *.
    destruct (IH fuel q (length (heap w ++ [o]))
                (mkWorld ((heap w ++ [o]) ++ [decremented o; one_less_literal o])
                         ((trace w ++ announce o q ++ [post_request o q]) ++ ts)))
      as (r & hs & ts' & E' & Hr & Hposts).
    + rewrite current_options_retry, Hn. cbn. do 2 f_equal. lia.
    + lia.
    + rewrite E'. cbn [heap trace].
      exists r, ([o] ++ [decremented o; one_less_literal o] ++ hs),
        ((announce o q ++ [post_request o q]) ++ ts ++ ts').
      split; [by rewrite <- !app_assoc|]. split; [done|].
      rewrite !posts_app. rewrite posts_app in Hp. lia.
Qed.

(** C10 (as the code has it). With a retry budget [numRetries = n]
    that is an integer from 0 to [2 ** 53], whatever the service
    answers, one call of [overpass] ends (it returns a response or
    throws) after at most [n + 1] POST requests, that is, after at most
    [n] retries. *)
Theorem overpass_terminates_within_budget (n : Z) fuel q l w :
  (0 <= n)%Z ->
  (n <= JS.MAX_SAFE)%Z ->
  numRetries (current_options l w) = Some (JS.Num n) ->
  Z.to_nat n < fuel ->
  exists r hs ts,
    overpass fuel q l w = (r, mkWorld (heap w ++ hs) (trace w ++ ts))
    /\ r <> OutOfFuel
    /\ posts ts <= Z.to_nat n + 1.
Proof.
  intros Hn _ Hopts Hfuel.
  destruct (overpass_budget (Z.to_nat n) fuel q l w) as (r & hs & ts & E & Hr & Hp).
  - by rewrite Z2Nat.id.
  - done.
  - exists r, hs, ts. split; [done|]. split; [done | lia].
Qed.

(** *** No budget, no retry *)

Arguments apiStatus : simpl never.
Arguments oneLessRetry : simpl never.
Arguments current_options : simpl never.
Arguments posted : simpl never.
Arguments deref : simpl never.

Lemma not_ok_429 resp : status resp = 429%Z -> negb (ok resp) = true.
Proof. unfold ok. by intros ->. Qed.

Lemma not_ok_504 resp : status resp = 504%Z -> negb (ok resp) = true.
Proof. unfold ok. by intros ->. Qed.

(** C3. A call whose retry budget is 0 answers a 429 with the Rate Limit
    error and a 504 with the Gateway Timeout error, and its POST is the
    only request it sends: no status request, no second POST (and no
    timer). *)
Theorem no_budget_no_retry fuel q l w resp :
  numRetries (current_options l w) = Some (JS.Num 0) ->
  server (trace (posted q l w)) = Resolved resp ->
  (status resp = 429%Z ->
   overpass (S fuel) q l w = (Throw OverpassRateLimitError, posted q l w))
  /\ (status resp = 504%Z ->
      overpass (S fuel) q l w = (Throw OverpassGatewayTimeoutError, posted q l w))
  /\ requests (trace (posted q l w)) = requests (trace w) + 1
  /\ timeouts (trace (posted q l w)) = timeouts (trace w).
Proof.
  intros Hn Hresp. rewrite overpass_S, Hresp.
  assert (Hd : deref (length (heap w)) (posted q l w) = current_options l w)
    by (by apply (deref_opts_after q l w)).
  split; [|split; [|split]].
  - intros E. unfold on_response. rewrite (not_ok_429 _ E), E. cbn.
    unfold bind, prop. by rewrite Hd, Hn.
  - intros E. unfold on_response. rewrite (not_ok_504 _ E), E. cbn.
    unfold bind, prop. by rewrite Hd, Hn.
  - unfold posted, announce. cbn [trace]. rewrite !requests_app.
    destruct (truthy _); cbn; lia.
  - unfold posted, announce, timeouts. cbn [trace]. rewrite !List.filter_app.
    destruct (truthy _); cbn; by rewrite app_nil_r.
Qed.

(** *** The decision of the 429 branch *)

(** C4. The test of the 429 branch is [shouldRetryImmediately], and it
    holds whenever [rateLimit] is 0, whatever the two lists hold. For
    every snapshot the callback of the 429 branch does what that test
    says: when it holds, the retry runs at once, nothing before it; when
    it does not, the retry runs behind a timer (and, for a verbose call,
    a console line). The executor hands the outcome of the status fetch
    to that callback, and its retry is a call of the executor on a new
    object that holds the options with one retry less. *)
Theorem immediate_retry_decision st :
  retry_now st = shouldRetryImmediately st
  /\ (rateLimit st = Some (JS.Num 0) -> shouldRetryImmediately st = true)
  /\ (forall retry opts w,
        on_apiStatus retry opts st w
        = if shouldRetryImmediately st then retry w
          else retry (mkWorld (heap w) (trace w ++ wait_events (deref opts w) st)))
  /\ (forall fuel q l w resp,
        server (trace (posted q l w)) = Resolved resp ->
        status resp = 429%Z ->
        JS.eq (JS.ToNumber (numRetries (current_options l w))) (JS.Num 0) = false ->
        overpass (S fuel) q l w
        = (snapshot <- apiStatus (endpoint (current_options l w)) ;;
           on_apiStatus (less <- oneLessRetry (length (heap w)) ;; overpass fuel q less)
                        (length (heap w)) snapshot)
            (posted q l w))
  /\ (forall fuel q opts w,
        on_apiStatus (less <- oneLessRetry opts ;; overpass fuel q less) opts st w
        = overpass fuel q (length (heap w))
            (mkWorld (heap w ++ [decremented (deref opts w);
                                 one_less_literal (deref opts w)])
                     (trace w ++ (if shouldRetryImmediately st then []
                                  else wait_events (deref opts w) st)))).
Proof.
  assert (Heq : retry_now st = shouldRetryImmediately st).
  { unfold retry_now, shouldRetryImmediately.
    rewrite (Nat.add_comm (length (slotsAvailableAfter st))). apply orb_comm. }
  assert (Hcb : forall retry opts w,
            on_apiStatus retry opts st w
            = if shouldRetryImmediately st then retry w
              else retry (mkWorld (heap w) (trace w ++ wait_events (deref opts w) st))).
  { intros retry opts w. unfold on_apiStatus, wait_events. rewrite Heq.
    destruct (shouldRetryImmediately st); [done|].
    unfold bind, prop, when, consoleMsg, sleep, emit, ret. cbn [fst snd].
    destruct (truthy (verbose (deref opts w))); cbn [heap trace];
      by rewrite <- ?app_assoc. }
  split; [done|]. split; [|split; [done|split]].
  - intros Hr. unfold shouldRetryImmediately. by rewrite Hr.
  - intros fuel q l w resp Hresp E Hbudget.
    rewrite overpass_S, Hresp.
    assert (Hd : deref (length (heap w)) (posted q l w) = current_options l w)
      by (by apply (deref_opts_after q l w)).
    unfold on_response. rewrite (not_ok_429 _ E), E. cbn.
    unfold bind, prop. by rewrite Hd, Hbudget, Hd.
  - intros fuel q opts w. rewrite Hcb. unfold bind.
    destruct (shouldRetryImmediately st); rewrite oneLessRetry_eq; cbn [heap trace].
    + by rewrite app_nil_r.
    + by rewrite (deref_heap opts (mkWorld (heap w) (trace w ++ wait_events (deref opts w) st)) w).
Qed.

(** *** The waiting time *)

Lemma min2_ge a b m :
  JS.ge (JS.min2 a b) (JS.Num m) = true ->
  JS.ge a (JS.Num m) = true /\ JS.ge b (JS.Num m) = true.
Proof.
  destruct a as [|x|[]], b as [|y|[]]; cbn; try done.
  intros H%Z.leb_le. split; apply Z.leb_le; lia.
Qed.

(** A minimum that is at least [m] is the minimum of numbers that are
    at least [m]. *)
Lemma Math_min_ge xs m :
  forall a,
    JS.ge (JS.Math_min a xs) (JS.Num m) = true ->
    JS.ge a (JS.Num m) = true /\ Forall (fun x => JS.ge x (JS.Num m) = true) xs.
Proof.
  unfold JS.Math_min.
  induction xs as [|x xs IH]; intros a H; cbn in H; [done|].
  destruct (IH _ H) as [Hax Hxs]. destruct (min2_ge _ _ _ Hax) as [Ha Hx].
  split; [done|]. by apply Forall_cons.
Qed.

Lemma min2_zero x : JS.ge x (JS.Num 0) = true -> JS.min2 (JS.Num 0) x = JS.Num 0.
Proof.
  destruct x as [|y|[]]; cbn; try done.
  intros H%Z.leb_le. f_equal. lia.
Qed.

(** [Math.min(0, ...xs)] is 0 when no element of [xs] is negative or
    [NaN]. *)
Lemma Math_min_zero xs :
  Forall (fun x => JS.ge x (JS.Num 0) = true) xs -> JS.Math_min (JS.Num 0) xs = JS.Num 0.
Proof.
  unfold JS.Math_min. induction 1 as [|x xs Hx _ IH]; [done|].
  cbn [fold_left]. by rewrite min2_zero.
Qed.

(** Whatever the slots say, the wait of the code is at most one second. *)
Lemma lowestWaitTime_at_most_one st s :
  lowestWaitTime st = JS.Num s -> (s <= 1)%Z.
Proof.
  unfold lowestWaitTime.
  destruct (JS.Math_min (JS.Num 0) (slotsAvailableAfter st)) as [|m|p] eqn:Em;
    [done| |done].
  assert (Hge : JS.ge (JS.Math_min (JS.Num 0) (slotsAvailableAfter st)) (JS.Num m) = true)
    by (rewrite Em; cbn; apply Z.leb_le; lia).
  destruct (Math_min_ge _ _ _ Hge) as [H0%Z.leb_le _].
  cbn. intros [= <-]. lia.
Qed.

(** C8. When [slotsAvailableAfter] is not empty and its minimum is at
    least 0, the waiting time that the 429 branch computes is a number
    of seconds that is at least 1, and the timer of a delayed retry is
    set to that many seconds. *)
Theorem wait_at_least_one_second st x xs :
  slotsAvailableAfter st = x :: xs ->
  JS.ge (JS.Math_min x xs) (JS.Num 0) = true ->
  exists s,
    lowestWaitTime st = JS.Num s /\ (1 <= s)%Z
    /\ forall retry opts w,
         retry_now st = false ->
         exists ts,
           on_apiStatus retry opts st w = retry (mkWorld (heap w) (trace w ++ ts))
           /\ timeouts ts = [ETimeout (JS.Num (s * 1000))].
Proof.
  intros Hslots Hmin.
  destruct (Math_min_ge _ _ _ Hmin) as [Hx Hxs].
  assert (Hw : lowestWaitTime st = JS.Num 1).
  { unfold lowestWaitTime. rewrite Hslots, Math_min_zero; [done|].
    by apply Forall_cons. }
  exists 1%Z. split; [done|]. split; [lia|].
  intros retry opts w Hnow.
  unfold on_apiStatus. rewrite Hnow, Hw.
  unfold bind, prop, when, consoleMsg, sleep, emit, ret. cbn.
  destruct (truthy _); cbn; eexists; (split; [by rewrite <- ?app_assoc | done]).
Qed.

(** C1 (what the code does). For a snapshot with [rateLimit = 1], one
    running query and [slotsAvailableAfter = [5]], the 429 branch sets
    its timer to 1000 ms, one second, and then retries; the formula of
    the specification gives 6 seconds for this snapshot. *)
Theorem busy_snapshot_waits_one_second cid time running retry opts w :
  let st := mkStatus cid time (Some (JS.Num 1)) [running] [JS.Num 5] in
  retry_now st = false
  /\ lowestWaitTime st = JS.Num 1
  /\ waitSeconds (JS.Num 5) [] = JS.Num 6
  /\ on_apiStatus retry opts st w
     = retry (mkWorld (heap w)
                (trace w
                 ++ (if truthy (verbose (deref opts w))
                     then [EConsole "Overpass: waiting 1s for rate limit end"]
                     else [])
                 ++ [ETimeout (JS.Num 1000)])).
Proof.
  cbn zeta. split; [done|]. split; [done|]. split; [done|].
  unfold on_apiStatus. cbn [retry_now].
  change (retry_now _) with false. cbv iota.
  unfold bind, prop, when, consoleMsg, sleep, emit, ret.
  destruct (truthy _); cbn; by rewrite <- ?app_assoc.
Qed.

(** *** The options of a retry *)


Lemma current_options_decremented l w h tr more :
  current_options (length h)
    (mkWorld (h ++ decremented (current_options l w) :: more) tr)
  = decremented (current_options l w).
Proof.
  unfold current_options at 1. rewrite deref_new.
  unfold current_options, defaultOpts.
  by destruct (deref l w) as [[] [] [] [] []].
Qed.


(** *** The status parser *)

Lemma parseApiStatus_line_raises st line :
  appends line = true ->
  parseApiStatus_line st line = inl (TypeError "append is not a function").
Proof.
  unfold appends, parseApiStatus_line. cbv zeta.
  destruct (String.eqb _ "Connected"); [done|].
  destruct (String.eqb _ "Current"); [done|].
  destruct (String.eqb _ "Rate"); [done|].
  destruct (String.eqb _ "Slot"); [done|].
  cbn. by intros ->.
Qed.

Lemma parseApiStatus_line_returns st line :
  appends line = false ->
  exists st', parseApiStatus_line st line = inr st'
              /\ slotsRunning st' = slotsRunning st
              /\ slotsAvailableAfter st' = slotsAvailableAfter st.
Proof.
  unfold appends, parseApiStatus_line. cbv zeta.
  destruct (String.eqb _ "Connected"); [by eexists|].
  destruct (String.eqb _ "Current"); [by eexists|].
  destruct (String.eqb _ "Rate"); [by eexists|].
  destruct (String.eqb _ "Slot"); [done|].
  cbn. intros ->. by eexists.
Qed.

Lemma forEach_line_raises lines :
  forall st, existsb appends lines = true ->
             forEach_line lines st = inl (TypeError "append is not a function").
Proof.
  induction lines as [|line lines IH]; intros st H; [done|]. cbn in *.
  destruct (appends line) eqn:Ha.
  - by rewrite parseApiStatus_line_raises.
  - destruct (parseApiStatus_line_returns st line Ha) as (st' & -> & _). by apply IH.
Qed.

Lemma forEach_line_returns lines :
  forall st, existsb appends lines = false ->
             exists st', forEach_line lines st = inr st'
                         /\ slotsRunning st' = slotsRunning st
                         /\ slotsAvailableAfter st' = slotsAvailableAfter st.
Proof.
  induction lines as [|line lines IH]; intros st H; [by eexists|]. cbn in *.
  apply orb_false_iff in H as [Ha Hrest].
  destruct (parseApiStatus_line_returns st line Ha) as (st1 & -> & R1 & A1).
  destruct (IH st1 Hrest) as (st2 & -> & R2 & A2).
  exists st2. split; [done|]. split; congruence.
Qed.

(** The parser throws exactly on the reports that have a line on which
    it appends; when it returns, both lists are empty. *)
Lemma parseApiStatus_cases text :
  (existsb appends (JS.split JS.LF text) = true
   /\ parseApiStatus text = inl (TypeError "append is not a function"))
  \/ (existsb appends (JS.split JS.LF text) = false
      /\ exists st, parseApiStatus text = inr st
                    /\ slotsRunning st = [] /\ slotsAvailableAfter st = []).
Proof.
  unfold parseApiStatus.
  destruct (existsb appends (JS.split JS.LF text)) eqn:H.
  - left. split; [done|]. by apply forEach_line_raises.
  - right. split; [done|]. by apply forEach_line_returns.
Qed.

(** *** The status fetch *)

(** What the status fetch does with the response it receives. *)
Lemma apiStatus_outcome e w resp :
  server (trace (status_requested e w)) = Resolved resp ->
  (is_text_plain resp = false ->
   exists m, apiStatus (Some e) w
             = (Throw (OverpassApiStatusError m), status_requested e w))
  /\ (is_text_plain resp = true ->
      forall st, parseApiStatus (text resp) = inr st ->
        (clientId st = None ->
         apiStatus (Some e) w
         = (Throw (OverpassApiStatusError "Unable to parse API Status"),
            status_requested e w))
        /\ (is_Some (clientId st) ->
            apiStatus (Some e) w = (Val st, status_requested e w)))
  /\ (is_text_plain resp = true ->
      forall err, parseApiStatus (text resp) = inl err ->
        apiStatus (Some e) w = (Throw err, status_requested e w)).
Proof.
  intros Hresp. unfold apiStatus, bind, fetch, is_text_plain.
  unfold status_requested in Hresp. cbn [trace] in Hresp. rewrite Hresp.
  fold (status_requested e w).
  split; [|split].
  - intros Hbad. destruct (content_type resp) as [t|]; [|by eexists].
    rewrite Hbad. rewrite orb_true_r. by eexists.
  - intros Hgood st Hst. destruct (content_type resp) as [t|]; [|done].
    rewrite Hgood. cbn [negb]. rewrite orb_false_r.
    destruct (String.eqb_spec t EmptyString) as [->|_]; [done|].
    rewrite Hst. cbn. split.
    + intros ->. by rewrite bool_decide_eq_false_2 by (by intros [? ?]).
    + intros Hc. by rewrite bool_decide_eq_true_2.
  - intros Hgood err Herr. destruct (content_type resp) as [t|]; [|done].
    rewrite Hgood. cbn [negb]. rewrite orb_false_r.
    destruct (String.eqb_spec t EmptyString) as [->|_]; [done|].
    by rewrite Herr.
Qed.

(** *** The status URL *)

Lemma append_nil_l (s : string) : EmptyString +:+ s = s.
Proof. reflexivity. Qed.

Lemma append_cons c (a b : string) : String c a +:+ b = String c (a +:+ b).
Proof. reflexivity. Qed.

Lemma append_assoc (a b c : string) : (a +:+ b) +:+ c = a +:+ b +:+ c.
Proof.
  induction a as [|x a IH]; [done|]. rewrite !append_cons. by f_equal.
Qed.

Lemma append_empty_r (a : string) : a +:+ EmptyString = a.
Proof.
  induction a as [|x a IH]; [done|]. rewrite append_cons. by f_equal.
Qed.

Lemma length_append (a b : string) :
  String.length (a +:+ b) = String.length a + String.length b.
Proof.
  induction a as [|x a IH]; [done|]. rewrite append_cons. cbn. by f_equal.
Qed.

Lemma ascii_eqb_refl c : JS.ascii_eqb c c = true.
Proof. apply Ascii.eqb_refl. Qed.

Lemma strip_prefix_append p s : JS.strip_prefix p (p +:+ s) = Some s.
Proof.
  induction p as [|c p IH]; [done|].
  rewrite append_cons. cbn. by rewrite ascii_eqb_refl.
Qed.

(** Whether [p] is a prefix of [u +:+ v] is decided inside [u] when [u]
    is at least as long as [p]. *)
Lemma strip_prefix_none_append p :
  forall u v, String.length p <= String.length u ->
              JS.strip_prefix p u = None -> JS.strip_prefix p (u +:+ v) = None.
Proof.
  induction p as [|c p IH]; intros u v Hlen H; [done|].
  destruct u as [|d u]; cbn in Hlen; [lia|].
  rewrite append_cons. cbn in *.
  destruct (JS.ascii_eqb c d); [|done]. apply IH; [lia | done].
Qed.

Lemma includes_false_inv pat c s :
  JS.includes pat (String c s) = false ->
  JS.strip_prefix pat (String c s) = None /\ JS.includes pat s = false.
Proof.
  unfold JS.includes. cbn [JS.indexOf].
  destruct (JS.strip_prefix pat (String c s)); [done|].
  by destruct (JS.indexOf pat s).
Qed.

Lemma replace_unfold pat by_ s :
  JS.replace pat by_ s
  = match JS.strip_prefix pat s with
    | Some rest => by_ +:+ rest
    | None =>
        match s with
        | EmptyString => EmptyString
        | String c s' => String c (JS.replace pat by_ s')
        end
    end.
Proof. by destruct s. Qed.

(** [replace] rewrites the leftmost occurrence of [/interpreter]. *)
Lemma replace_first_occurrence a b :
  JS.includes "/interpreter" (a +:+ "/interprete") = false ->
  JS.replace "/interpreter" "/status" (a +:+ "/interpreter" +:+ b)
  = a +:+ "/status" +:+ b.
Proof.
  induction a as [|c a IH]; intros H.
  - rewrite !append_nil_l. by rewrite replace_unfold, strip_prefix_append.
  - rewrite (append_cons c a) in H. apply includes_false_inv in H as [Hhere Hrest].
    rewrite !(append_cons c a), replace_unfold.
    replace (String c (a +:+ "/interpreter" +:+ b))
      with (String c (a +:+ "/interprete") +:+ ("r" +:+ b))
      by (rewrite append_cons, append_assoc; reflexivity).
    rewrite strip_prefix_none_append; [| |done].
    + rewrite append_cons. f_equal. apply (IH Hrest).
    + cbn. rewrite length_append. cbn. lia.
Qed.

Lemma replace_absent pat by_ s : JS.includes pat s = false -> JS.replace pat by_ s = s.
Proof.
  induction s as [|c s IH]; intros H.
  - unfold JS.includes in H. cbn in *. by destruct (JS.strip_prefix pat EmptyString).
  - apply includes_false_inv in H as [Hhere Hrest].
    rewrite replace_unfold, Hhere. by rewrite IH.
Qed.

Lemma replace_trailing_segment_append a :
  replace_trailing_segment (a +:+ "/interpreter") = a +:+ "/status".
Proof.
  induction a as [|c a IH]; [done|].
  rewrite !(append_cons c a). cbn [replace_trailing_segment].
  destruct (String.eqb_spec (String c (a +:+ "/interpreter")) "/interpreter") as [E|_].
  - apply (f_equal String.length) in E. cbn in E. rewrite length_append in E.
    cbn in E. lia.
  - by rewrite IH.
Qed.

(** C7 (as the code has it). The status request goes to the endpoint in
    which the first, leftmost, occurrence of [/interpreter] is replaced
    by [/status]; an endpoint without [/interpreter] is used as it is.
    When the endpoint ends in [/interpreter] and has no occurrence
    before, this is the endpoint with its trailing segment replaced. *)
Theorem status_request_url e w :
  exists url,
    trace (apiStatus (Some e) w).2 = trace w ++ [EFetch url None]
    /\ (forall a b,
          e = a +:+ "/interpreter" +:+ b ->
          JS.includes "/interpreter" (a +:+ "/interprete") = false ->
          url = a +:+ "/status" +:+ b)
    /\ (JS.includes "/interpreter" e = false -> url = e)
    /\ (forall a,
          e = a +:+ "/interpreter" ->
          JS.includes "/interpreter" (a +:+ "/interprete") = false ->
          url = replace_trailing_segment e).
Proof.
  exists (JS.replace "/interpreter" "/status" e). split; [|split; [|split]].
  - unfold apiStatus, bind, fetch.
    destruct (server _) as [resp|reason]; [|done].
    destruct (match content_type resp with Some _ => _ | None => _ end); [done|].
    destruct (parseApiStatus (text resp)); cbn; [done|].
    by destruct (negb _).
  - intros a b -> H. by apply replace_first_occurrence.
  - apply replace_absent.
  - intros a -> H. rewrite replace_trailing_segment_append.
    rewrite <- (append_empty_r (a +:+ "/interpreter")), append_assoc.
    rewrite replace_first_occurrence by done. by rewrite append_empty_r.
Qed.

(** *** The result adapters *)

Lemma split_nonempty sep s : JS.split sep s <> [].
Proof.
  destruct s as [|c s]; cbn; [done|].
  destruct (JS.ascii_eqb c sep); [done|]. by destruct (JS.split sep s).
Qed.

(** Splitting around one separator. *)
Lemma split_append sep a b :
  JS.split sep (a +:+ String sep b) = JS.split sep a ++ JS.split sep b.
Proof.
  induction a as [|c a IH].
  - rewrite append_nil_l. cbn. by rewrite ascii_eqb_refl.
  - rewrite append_cons. cbn. rewrite IH.
    destruct (JS.ascii_eqb c sep); [done|].
    pose proof (split_nonempty sep a). by destruct (JS.split sep a).
Qed.

(** A string without separator is one piece. *)
Lemma split_one sep s :
  JS.every (fun c => negb (JS.ascii_eqb c sep)) s = true ->
  JS.split sep s = [s].
Proof.
  induction s as [|c s IH]; [done|]. cbn.
  intros [Hc Hs]%andb_true_iff. rewrite (IH Hs).
  by destruct (JS.ascii_eqb c sep).
Qed.

Lemma substring_all n s : n = String.length s -> String.substring 0 n s = s.
Proof.
  intros ->. induction s as [|c s IH]; [done|]. cbn. by f_equal.
Qed.

Lemma substring_prefix (a b : string) :
  String.substring 0 (String.length a) (a +:+ b) = a.
Proof.
  induction a as [|c a IH]; [by destruct b|]. rewrite append_cons. cbn. by f_equal.
Qed.

Lemma substring_skip (a b : string) n :
  String.substring (String.length a) n (a +:+ b) = String.substring 0 n b.
Proof.
  induction a as [|c a IH]; [done|]. rewrite append_cons. cbn. apply IH.
Qed.

(** The nine characters that [overpassXml] compares with [</remark>],
    for a body with nine characters after them. *)
Lemma slice_remark_position (a mid z : string) :
  String.length mid = 9 -> String.length z = 9 ->
  JS.slice (-18) (Some (-9)%Z) (a +:+ mid +:+ z) = mid.
Proof.
  intros Hm Hz. unfold JS.slice, JS.clamp_index.
  rewrite !length_append, Hm, Hz. cbn [Z.ltb Z.compare].
  replace (Z.to_nat (Z.max (Z.of_nat (String.length a + (9 + 9)) + -18) 0))
    with (String.length a) by lia.
  replace (Z.to_nat (Z.max (Z.of_nat (String.length a + (9 + 9)) + -9) 0)
           - String.length a) with (String.length mid) by lia.
  by rewrite substring_skip, substring_prefix.
Qed.

(** A greedy repetition that can run over [u] ends where the rest of the
    pattern first matches behind [u]. *)
Lemma greedy_over {R} cls u :
  forall min v (k : string -> string -> option R) r,
    JS.every cls u = true ->
    JS.greedy cls (min - String.length u) v (fun t rest => k (u +:+ t) rest) = Some r ->
    JS.greedy cls min (u +:+ v) k = Some r.
Proof.
  induction u as [|c u IH]; intros min v k r Hu H.
  - rewrite append_nil_l. by rewrite Nat.sub_0_r in H.
  - cbn in Hu. apply andb_true_iff in Hu as [Hc Hu].
    rewrite append_cons. cbn [JS.greedy]. rewrite Hc.
    rewrite (IH (Nat.pred min) v (fun t => k (String c t)) r); [done | done |].
    replace (Nat.pred min - String.length u) with (min - String.length (String c u))
      by (cbn; lia).
    exact H.
Qed.

Lemma every_append cls (a b : string) :
  JS.every cls (a +:+ b) = JS.every cls a && JS.every cls b.
Proof.
  induction a as [|c a IH]; [done|]. rewrite append_cons. cbn.
  by rewrite IH, andb_assoc.
Qed.

Lemma exec_here p s r : JS.match_here p s EmptyString = Some r -> JS.exec p s = Some r.
Proof. intros H. destruct s; cbn; by rewrite H. Qed.

Lemma greedy_stop {R} cls c s (k : string -> string -> option R) :
  cls c = false -> JS.greedy cls 0 (String c s) k = k EmptyString (String c s).
Proof. intros H. cbn. by rewrite H. Qed.

(** The remark pattern on a remark line of the service: the capture is
    the message with the space that follows it. *)
Lemma exec_remark_line c m :
  JS.is_space c = false ->
  JS.every JS.is_dot (String c m) = true ->
  JS.exec remark_regex ("<remark> " +:+ String c m +:+ " </remark>")
  = Some (String c m +:+ " ", EmptyString).
Proof.
  intros Hc Hdot. apply exec_here.
  change ("<remark> " +:+ String c m +:+ " </remark>")
    with ("<remark>" +:+ " " +:+ String c (m +:+ " </remark>")).
  unfold remark_regex. cbn [JS.match_here].
  rewrite strip_prefix_append.
  apply (greedy_over JS.is_space " "); [reflexivity|].
  change (0 - String.length " ") with 0.
  rewrite greedy_stop by done.
  replace (String c (m +:+ " </remark>"))
    with ((String c m +:+ " ") +:+ "</remark>")
    by (by rewrite append_assoc).
  apply greedy_over.
  - rewrite every_append, Hdot. reflexivity.
  - rewrite length_append. cbn [String.length].
    replace (1 - S (String.length m + 1)) with 0 by lia.
    cbn. by rewrite append_empty_r.
Qed.

Lemma every_impl (p1 p2 : ascii -> bool) s :
  (forall c, p1 c = true -> p2 c = true) ->
  JS.every p1 s = true -> JS.every p2 s = true.
Proof.
  intros Himp. induction s as [|c s IH]; [done|]. cbn.
  intros [Hc Hs]%andb_true_iff. by rewrite (Himp c Hc), IH.
Qed.

Lemma is_dot_not_LF c : JS.is_dot c = true -> negb (JS.ascii_eqb c JS.LF) = true.
Proof. unfold JS.is_dot. by destruct (JS.ascii_eqb c JS.LF). Qed.

Lemma join_cons sep x rest :
  exists tail, JS.join sep (x :: rest) = x +:+ tail.
Proof.
  destruct rest as [|y rest].
  - exists EmptyString. cbn. by rewrite append_empty_r.
  - by eexists.
Qed.

(** The lines of a body that ends with a remark. *)
Lemma split_remark_body pre msg :
  JS.every JS.is_dot msg = true ->
  JS.split JS.LF (remark_body pre msg)
  = JS.split JS.LF pre
    ++ ["<remark> " +:+ msg +:+ " </remark>"; EmptyString; "</osm>"; EmptyString].
Proof.
  intros Hdot. unfold remark_body, osm_end.
  rewrite split_append. f_equal.
  replace ("<remark> " +:+ msg +:+ " </remark>"
           +:+ String JS.LF (String JS.LF ("</osm>" +:+ String JS.LF EmptyString)))
    with (("<remark> " +:+ msg +:+ " </remark>")
          +:+ String JS.LF (String JS.LF ("</osm>" +:+ String JS.LF EmptyString)))
    by (by rewrite !append_assoc).
  rewrite (split_append JS.LF ("<remark> " +:+ msg +:+ " </remark>")).
  rewrite split_one; [done|].
  rewrite !every_append. rewrite (every_impl JS.is_dot _ msg is_dot_not_LF Hdot).
  reflexivity.
Qed.

(** On a body that ends with a remark, behind at least one other line,
    the markup adapter throws, and the message starts with the text of
    that remark. *)
Lemma check_xml_remark_body pre c m :
  JS.is_space c = false ->
  JS.every JS.is_dot (String c m) = true ->
  exists tail,
    check_xml_remark (remark_body pre (String c m))
    = inl (OverpassError (String c m +:+ " " +:+ tail)).
Proof.
  intros Hc Hdot. unfold check_xml_remark.
  assert (Hslice : JS.slice (-18) (Some (-9)%Z) (remark_body pre (String c m))
                   = "</remark>").
  { unfold remark_body.
    replace (pre +:+ String JS.LF ("<remark> " +:+ String c m +:+ " </remark>" +:+ osm_end))
      with ((pre +:+ String JS.LF ("<remark> " +:+ String c m +:+ " "))
            +:+ "</remark>" +:+ osm_end).
    - by apply slice_remark_position.
    - rewrite append_assoc. f_equal. rewrite (append_cons JS.LF). f_equal.
      rewrite !append_assoc. reflexivity. }
  rewrite Hslice. cbn [String.eqb Ascii.eqb Bool.eqb]. cbv iota.
  rewrite split_remark_body by done.
  rewrite length_app. cbn [length].
  replace (length (JS.split JS.LF pre) + 4 - 4) with (length (JS.split JS.LF pre)) by lia.
  pose proof (split_nonempty JS.LF pre) as Hne.
  destruct (length (JS.split JS.LF pre)) as [|n] eqn:Hlen.
  { by destruct (JS.split JS.LF pre). }
  cbn [collect_remarks]. rewrite <- Hlen, list_lookup_middle by done.
  rewrite exec_remark_line by done.
  destruct (join_cons ", " (String c m +:+ " ") (collect_remarks
    (JS.split JS.LF pre ++ ["<remark> " +:+ String c m +:+ " </remark>";
                            EmptyString; "</osm>"; EmptyString]) n))
    as (tail & ->).
  exists tail. by rewrite append_assoc.
Qed.

(** C6 (as the code has it). On a successful response, [overpassJson]
    throws an error that carries the remark when the decoded body is an
    object with a [remark] that is a string and not the empty one, and
    returns the decoded object when it has no [remark] or an empty one
    (a decoded [null] makes it throw a [TypeError]); [overpassXml]
    throws when [</remark>] stands 18 to 9 characters before the end of
    the body, and returns the body otherwise. For a body that ends as
    the service ends it (a remark line, an empty line, the closing tag)
    behind at least one other line, the message of that error starts
    with the text of the remark. *)
Theorem adapters_detect_remark fuel q l w resp w' :
  overpass fuel q l w = (Val resp, w') ->
  (forall props r,
     Response_json resp = inr (JObject props) ->
     assoc "remark" props = Some (JString r) -> r <> EmptyString ->
     overpassJson fuel q l w = (Throw (OverpassError r), w'))
  /\ (forall props,
        Response_json resp = inr (JObject props) ->
        assoc "remark" props = None \/ assoc "remark" props = Some (JString EmptyString) ->
        overpassJson fuel q l w = (Val (JObject props), w'))
  /\ (Response_json resp = inr JNull ->
      exists m, overpassJson fuel q l w = (Throw (TypeError m), w'))
  /\ (JS.slice (-18) (Some (-9)%Z) (text resp) = "</remark>" ->
      exists msg, overpassXml fuel q l w = (Throw (OverpassError msg), w'))
  /\ (JS.slice (-18) (Some (-9)%Z) (text resp) <> "</remark>" ->
      overpassXml fuel q l w = (Val (text resp), w'))
  /\ (forall pre c m,
        text resp = remark_body pre (String c m) ->
        JS.is_space c = false ->
        JS.every JS.is_dot (String c m) = true ->
        exists tail,
          overpassXml fuel q l w
          = (Throw (OverpassError (String c m +:+ " " +:+ tail)), w')).
Proof.
  intros Hrun. unfold overpassJson, overpassXml, bind. rewrite Hrun.
  split; [|split; [|split; [|split; [|split]]]].
  - intros props r Hj Hrem Hr. rewrite Hj. unfold check_json_remark. cbn.
    rewrite Hrem. cbn. by destruct (String.eqb_spec r EmptyString).
  - intros props Hj Hrem. rewrite Hj. unfold check_json_remark. cbn.
    by destruct Hrem as [->| ->].
  - intros Hj. rewrite Hj. cbn. by eexists.
  - intros Hpos. unfold check_xml_remark. rewrite Hpos. cbn. by eexists.
  - intros Hpos. unfold check_xml_remark.
    by destruct (String.eqb_spec (JS.slice (-18) (Some (-9)%Z) (text resp)) "</remark>").
  - intros pre c m -> Hc Hdot.
    destruct (check_xml_remark_body pre c m Hc Hdot) as (tail & ->).
    by exists tail.
Qed.

(** *** The parser on reports of the service *)

(** C2 (what the code does). The parser throws a [TypeError] on the
    empty report, on a report that is one [Slot] line, on a report that
    is one line of a running query, and on a full report of the
    service: on each it reaches a call of [append], which arrays do not
    have. *)
Theorem parseApiStatus_throws_on_reports :
  parseApiStatus EmptyString = inl (TypeError "append is not a function")
  /\ parseApiStatus "Slot available after: 2020-01-01T00:00:05Z, in 5 seconds."
     = inl (TypeError "append is not a function")
  /\ parseApiStatus
       (String "4" (String "2" (String JS.TAB "536870912")))
     = inl (TypeError "append is not a function")
  /\ parseApiStatus Scenario.busy_report
     = inl (TypeError "append is not a function").
Proof. repeat split; apply forEach_line_raises; reflexivity. Qed.

(** ** Further properties of the executor *)

Lemma requests_posted q l w :
  requests (trace (posted q l w)) = requests (trace w) + 1.
Proof.
  unfold posted, announce. cbn [trace]. rewrite !requests_app.
  destruct (truthy _); cbn; lia.
Qed.

Lemma timeouts_posted q l w :
  timeouts (trace (posted q l w)) = timeouts (trace w).
Proof.
  unfold posted, announce, timeouts. cbn [trace]. rewrite !List.filter_app.
  destruct (truthy _); cbn; by rewrite app_nil_r.
Qed.

Lemma deref_opts_posted q l w :
  deref (length (heap w)) (posted q l w) = current_options l w.
Proof. by apply (deref_opts_after q l w). Qed.

(** X1. A 400 response is never retried, whatever the budget: the call
    throws the Bad Request error with the query and the messages found
    in the body, quotes unescaped, and its POST is its only request. *)
Theorem bad_request_is_not_retried fuel q l w resp :
  server (trace (posted q l w)) = Resolved resp ->
  status resp = 400%Z ->
  overpass (S fuel) q l w
  = (Throw (OverpassBadRequestError q
              (map (JS.replaceAll "&quot;" QUOTE)
                   (matchAll bad_request_regex (text resp)))),
     posted q l w)
  /\ requests (trace (posted q l w)) = requests (trace w) + 1
  /\ timeouts (trace (posted q l w)) = timeouts (trace w).
Proof.
  intros Hresp E. rewrite overpass_S, Hresp.
  split; [|split; [apply requests_posted | apply timeouts_posted]].
  unfold on_response, ok. by rewrite E.
Qed.

(** X2. A response whose status is outside 200-299 and is none of 400,
    429 and 504 is never retried: the call throws the generic error with
    the status code and the reason phrase, after its one POST. *)
Theorem other_status_is_not_retried fuel q l w resp :
  server (trace (posted q l w)) = Resolved resp ->
  ok resp = false ->
  status resp <> 400%Z -> status resp <> 429%Z -> status resp <> 504%Z ->
  overpass (S fuel) q l w
  = (Throw (OverpassError
              (JS.number_to_string (JS.Num (status resp)) +:+ " " +:+ statusText resp)),
     posted q l w)
  /\ requests (trace (posted q l w)) = requests (trace w) + 1.
Proof.
  intros Hresp Hok H400 H429 H504. rewrite overpass_S, Hresp.
  split; [|apply requests_posted].
  unfold on_response. rewrite Hok. cbn [negb].
  destruct (Z.eqb_spec (status resp) 400); [done|].
  destruct (Z.eqb_spec (status resp) 429); [done|].
  by destruct (Z.eqb_spec (status resp) 504).
Qed.

(** X3. A response with a status in 200-299 is returned as it is, after
    the one POST; the store gains the options object only, no timer is
    set, and the only event after the POST is the console line with the
    payload size, for a verbose call on a response that declares its
    length. *)
Theorem success_is_returned_unchanged fuel q l w resp :
  server (trace (posted q l w)) = Resolved resp ->
  ok resp = true ->
  overpass (S fuel) q l w
  = (Val resp,
     mkWorld (heap w ++ [current_options l w])
             (trace (posted q l w) ++ payload_line (current_options l w) resp)).
Proof.
  intros Hresp Hok. rewrite overpass_S, Hresp.
  unfold on_response. rewrite Hok. cbn [negb].
  unfold bind, prop, payload_line. rewrite deref_opts_posted.
  destruct (_ && _); cbn; [done|]. by rewrite app_nil_r.
Qed.

(** X4. A [fetch] that is rejected (the network fails) is not retried:
    the call throws the error of [fetch] after its one attempt. *)
Theorem network_failure_is_not_retried fuel q l w reason :
  server (trace (posted q l w)) = Rejected reason ->
  overpass (S fuel) q l w = (Throw (FetchError reason), posted q l w)
  /\ requests (trace (posted q l w)) = requests (trace w) + 1.
Proof.
  intros Hresp. rewrite overpass_S, Hresp. split; [done | apply requests_posted].
Qed.

(** A 504 with a budget that is not zero: the timer, then the next
    invocation on the copy. *)
Lemma retry_after_504 fuel q l w resp :
  server (trace (posted q l w)) = Resolved resp ->
  status resp = 504%Z ->
  JS.eq (JS.ToNumber (numRetries (current_options l w))) (JS.Num 0) = false ->
  overpass (S fuel) q l w
  = overpass fuel q (S (length (heap w)))
      (mkWorld (heap w ++ [current_options l w;
                           decremented (current_options l w);
                           one_less_literal (current_options l w)])
               (trace (posted q l w)
                ++ [ETimeout (JS.ToNumber (retryPause (current_options l w)))])).
Proof.
  intros Hresp E Hbudget. rewrite overpass_S, Hresp.
  unfold on_response. rewrite (not_ok_504 _ E), E. cbn.
  unfold bind, prop, sleep, emit. rewrite deref_opts_posted, Hbudget.
  rewrite deref_opts_posted. cbn [heap trace].
  rewrite oneLessRetry_eq. cbn [heap trace].
  rewrite (deref_opts_after q l w) by done.
  unfold posted. cbn [heap trace].
  replace (length (heap w ++ [current_options l w])) with (S (length (heap w)))
    by (rewrite length_app; cbn; lia).
  by rewrite <- !app_assoc.
Qed.

(** X5. A 504 with a budget that is not zero: the call sets one timer of
    [retryPause] milliseconds and then runs again on a new object that
    holds its options with one retry less; it sends no status request. *)
Theorem gateway_timeout_pauses_and_retries fuel q l w resp :
  server (trace (posted q l w)) = Resolved resp ->
  status resp = 504%Z ->
  JS.eq (JS.ToNumber (numRetries (current_options l w))) (JS.Num 0) = false ->
  let o := current_options l w in
  let w' := mkWorld (heap w ++ [o; decremented o; one_less_literal o])
                    (trace (posted q l w) ++ [ETimeout (JS.ToNumber (retryPause o))]) in
  overpass (S fuel) q l w = overpass fuel q (S (length (heap w))) w'
  /\ current_options (S (length (heap w))) w' = decremented o.
Proof.
  intros Hresp E Hbudget. cbv zeta. split; [by apply (retry_after_504 fuel q l w resp)|].
  replace (S (length (heap w))) with (length (heap w ++ [current_options l w]))
    by (rewrite length_app; cbn; lia).
  replace (heap w ++ [current_options l w; decremented (current_options l w);
                      one_less_literal (current_options l w)])
    with ((heap w ++ [current_options l w])
          ++ decremented (current_options l w)
             :: [one_less_literal (current_options l w)])
    by (by rewrite <- app_assoc).
  apply current_options_decremented.
Qed.

Lemma timeouts_app a b : timeouts (a ++ b) = timeouts a ++ timeouts b.
Proof. unfold timeouts. apply List.filter_app. Qed.

Lemma requests_announce_post o q : requests (announce o q ++ [post_request o q]) = 1.
Proof. unfold announce. by destruct (truthy _). Qed.

Lemma timeouts_announce_post o q : timeouts (announce o q ++ [post_request o q]) = [].
Proof. unfold announce. by destruct (truthy _). Qed.

Lemma current_options_after_retry l w tr :
  current_options (S (length (heap w)))
    (mkWorld (heap w ++ [current_options l w; decremented (current_options l w);
                         one_less_literal (current_options l w)]) tr)
  = decremented (current_options l w).
Proof.
  replace (S (length (heap w))) with (length (heap w ++ [current_options l w]))
    by (rewrite length_app; cbn; lia).
  replace (heap w ++ [current_options l w; decremented (current_options l w);
                      one_less_literal (current_options l w)])
    with ((heap w ++ [current_options l w])
          ++ decremented (current_options l w)
             :: [one_less_literal (current_options l w)])
    by (by rewrite <- app_assoc).
  apply current_options_decremented.
Qed.

Lemma posts_timeout ms ts : posts (ETimeout ms :: ts) = posts ts.
Proof. reflexivity. Qed.

Lemma requests_timeout ms ts : requests (ETimeout ms :: ts) = requests ts.
Proof. reflexivity. Qed.

Lemma timeouts_timeout ms ts : timeouts (ETimeout ms :: ts) = ETimeout ms :: timeouts ts.
Proof. reflexivity. Qed.

Section Always504.

(** A service that answers every request with a 504. *)
Hypothesis always_504 :
  forall tr, exists resp, server tr = Resolved resp /\ status resp = 504%Z.

Lemma persistent_504 (n : nat) :
  forall fuel q l w,
    numRetries (current_options l w) = Some (JS.Num (Z.of_nat n)) ->
    n < fuel ->
    exists hs ts,
      overpass fuel q l w
      = (Throw OverpassGatewayTimeoutError,
         mkWorld (heap w ++ hs) (trace w ++ ts))
      /\ posts ts = S n /\ requests ts = S n
      /\ timeouts ts
         = replicate n (ETimeout (JS.ToNumber (retryPause (current_options l w)))).
Proof.
  induction n as [|n IH]; intros fuel q l w Hn Hfuel;
    (destruct fuel as [|fuel]; [lia|]);
    destruct (always_504 (trace (posted q l w))) as (resp & Hresp & E).
  - rewrite overpass_S, Hresp.
    unfold on_response. rewrite (not_ok_504 _ E), E. cbn.
    unfold bind, prop. rewrite deref_opts_posted, Hn. cbn.
    unfold posted. eexists _, _. split; [reflexivity|].
    split; [apply posts_posted|].
    split; [apply requests_announce_post | apply timeouts_announce_post].
  - rewrite (retry_after_504 fuel q l w resp Hresp E)
      by (rewrite Hn; cbn; apply Z.eqb_neq; lia).
    match goal with |- context [overpass fuel q ?l' ?w'] =>
      destruct (IH fuel q l' w') as (hs & ts & E' & Hp & Hr & Ht) end.
    + rewrite current_options_after_retry. cbn. rewrite Hn. cbn.
      do 2 f_equal. lia.
    + lia.
    + rewrite E'. rewrite current_options_after_retry in Ht. cbn [retryPause decremented] in Ht.
      unfold posted. cbn [heap trace].
      set (o := current_options l w) in *.
      exists ([o; decremented o; one_less_literal o] ++ hs),
        ((announce o q ++ [post_request o q])
         ++ [ETimeout (JS.ToNumber (retryPause o))] ++ ts).
      split; [by rewrite <- !app_assoc|].
      rewrite (posts_app (_ ++ [_])), (requests_app (_ ++ [_])), (timeouts_app (_ ++ [_])).
      change ([ETimeout (JS.ToNumber (retryPause o))] ++ ts)
        with (ETimeout (JS.ToNumber (retryPause o)) :: ts).
      rewrite posts_timeout, requests_timeout, timeouts_timeout.
      rewrite posts_posted, requests_announce_post, timeouts_announce_post, Hp, Hr, Ht.
      split; [done|]. split; [done|]. reflexivity.
Qed.

(** X6. Against a service that answers 504 every time, a call with a
    budget [numRetries = n], an integer from 0 to [2 ** 53], uses all
    of it: it sends exactly [n + 1] POSTs and nothing else, sets exactly
    [n] timers, each of [retryPause] milliseconds, and then throws the
    Gateway Timeout error. *)
Theorem persistent_504_uses_the_whole_budget (n : Z) fuel q l w :
  (0 <= n)%Z ->
  (n <= JS.MAX_SAFE)%Z ->
  numRetries (current_options l w) = Some (JS.Num n) ->
  Z.to_nat n < fuel ->
  exists hs ts,
    overpass fuel q l w
    = (Throw OverpassGatewayTimeoutError, mkWorld (heap w ++ hs) (trace w ++ ts))
    /\ posts ts = Z.to_nat n + 1
    /\ requests ts = Z.to_nat n + 1
    /\ timeouts ts
       = replicate (Z.to_nat n)
           (ETimeout (JS.ToNumber (retryPause (current_options l w)))).
Proof.
  intros Hn _ Hopts Hfuel.
  destruct (persistent_504 (Z.to_nat n) fuel q l w) as (hs & ts & E & Hp & Hr & Ht).
  - by rewrite Z2Nat.id.
  - done.
  - exists hs, ts. split; [done|]. split; [lia|]. split; [lia | done].
Qed.

Lemma never_zero_not_zero n : never_zero n -> JS.eq n (JS.Num 0) = false.
Proof. destruct n as [|z|p]; cbn; [done| |done]. intros H. apply Z.eqb_neq. lia. Qed.

Lemma never_zero_sub n : never_zero n -> never_zero (JS.sub n (JS.Num 1)).
Proof. destruct n as [|z|p]; cbn; [done | lia | done]. Qed.

(** A budget from which [- 1] never leads to 0 is never used up. *)
Lemma unreachable_zero_runs_out fuel :
  forall q l w,
    never_zero (JS.ToNumber (numRetries (current_options l w))) ->
    exists hs ts,
      overpass fuel q l w = (OutOfFuel, mkWorld (heap w ++ hs) (trace w ++ ts))
      /\ posts ts = fuel.
Proof.
  induction fuel as [|fuel IH]; intros q l w Hnz.
  { exists [], []. cbn. unfold out_of_fuel. rewrite !app_nil_r. by destruct w. }
  destruct (always_504 (trace (posted q l w))) as (resp & Hresp & E).
  rewrite (retry_after_504 fuel q l w resp Hresp E) by (by apply never_zero_not_zero).
  match goal with |- context [overpass fuel q ?l' ?w'] =>
    destruct (IH q l' w') as (hs & ts & E' & Hp) end.
  - rewrite current_options_after_retry. cbn. by apply never_zero_sub.
  - rewrite E'. unfold posted. cbn [heap trace].
    set (o := current_options l w) in *.
    exists ([o; decremented o; one_less_literal o] ++ hs),
      ((announce o q ++ [post_request o q])
       ++ [ETimeout (JS.ToNumber (retryPause o))] ++ ts).
    split; [by rewrite <- !app_assoc|].
    rewrite (posts_app (_ ++ [_])).
    change ([ETimeout (JS.ToNumber (retryPause o))] ++ ts)
      with (ETimeout (JS.ToNumber (retryPause o)) :: ts).
    rewrite posts_timeout, posts_posted, Hp. lia.
Qed.

(** X7. A budget that is negative, or [NaN], is never used up: against
    a service that answers 504 every time the call goes on retrying
    without end. In the model every bound on the depth of the
    recursion is reached, with one POST for each level. *)
Theorem negative_budget_retries_forever fuel :
  forall q l w,
    never_zero (JS.ToNumber (numRetries (current_options l w))) ->
    exists hs ts,
      overpass fuel q l w = (OutOfFuel, mkWorld (heap w ++ hs) (trace w ++ ts))
      /\ posts ts = fuel.
Proof. apply unreachable_zero_runs_out. Qed.

End Always504.

(** ** Further properties of the status parser and the status fetch *)

(** X8. Whenever the parser returns a snapshot, [slotsRunning] and
    [slotsAvailableAfter] are empty, and the report had no line on which
    the parser appends: no [Slot] line, no line of a running query, no
    empty line. *)
Theorem parser_never_fills_the_lists text st :
  parseApiStatus text = inr st ->
  slotsRunning st = [] /\ slotsAvailableAfter st = []
  /\ existsb appends (JS.split JS.LF text) = false.
Proof.
  intros Hst.
  destruct (parseApiStatus_cases text) as [[_ E] | (Hno & st' & E & Hr & Ha)];
    rewrite E in Hst; [done|].
  injection Hst as <-. done.
Qed.

Lemma parseApiStatus_line_clientId st line st' :
  parseApiStatus_line st line = inr st' ->
  (is_Some (clientId st') <-> is_Some (clientId st) \/ is_connected line = true).
Proof.
  unfold parseApiStatus_line, is_connected. cbv zeta.
  destruct (String.eqb _ "Connected").
  { intros [= <-]. cbn. split; [by right | by eexists]. }
  assert (Hsame : forall s : OverpassApiStatus,
            clientId s = clientId st ->
            is_Some (clientId s) <-> is_Some (clientId st) \/ false = true).
  { intros s ->. split; [by left | by intros [?|?]]. }
  destruct (String.eqb _ "Current"); [intros [= <-]; by apply Hsame|].
  destruct (String.eqb _ "Rate"); [intros [= <-]; by apply Hsame|].
  destruct (String.eqb _ "Slot"); [done|].
  destruct (_ && _); [done|]. intros [= <-]. by apply Hsame.
Qed.

Lemma forEach_line_clientId lines :
  forall st st',
    forEach_line lines st = inr st' ->
    (is_Some (clientId st')
     <-> is_Some (clientId st) \/ existsb is_connected lines = true).
Proof.
  induction lines as [|line lines IH]; intros st st' H; cbn in H.
  { injection H as <-. cbn. split; [by left | by intros [?|?]]. }
  destruct (parseApiStatus_line st line) as [|st1] eqn:E1; [done|].
  rewrite (IH _ _ H), (parseApiStatus_line_clientId _ _ _ E1). cbn.
  rewrite orb_true_iff. tauto.
Qed.

(** X9. Whenever the parser returns a snapshot, the snapshot has a
    [clientId] if and only if some line of the report has [Connected]
    as its first word. *)
Theorem clientId_needs_a_Connected_line text st :
  parseApiStatus text = inr st ->
  (is_Some (clientId st) <-> existsb is_connected (JS.split JS.LF text) = true).
Proof.
  unfold parseApiStatus. intros H.
  rewrite (forEach_line_clientId _ _ _ H). cbn.
  split; [intros [[? ?]|?]; done | by right].
Qed.

(** X10. When the declared content type of the status response is not
    [text/plain] (parameters apart), or is missing, the status fetch
    throws the API Status error that names the type it received; the
    body is not looked at. *)
Theorem wrong_content_type_is_rejected e w resp :
  server (trace (status_requested e w)) = Resolved resp ->
  is_text_plain resp = false ->
  apiStatus (Some e) w
  = (Throw (OverpassApiStatusError
              ("Response type incorrect ("
               +:+ default "null" (content_type resp) +:+ ")")),
     status_requested e w).
Proof.
  intros Hresp Hbad. unfold apiStatus, bind, fetch, is_text_plain in *.
  unfold status_requested in Hresp. cbn [trace] in Hresp. rewrite Hresp.
  fold (status_requested e w).
  destruct (content_type resp) as [t|]; [|done].
  by rewrite Hbad, orb_true_r.
Qed.

(** X11. For a [text/plain] status response whose report has no line on
    which the parser appends, the status fetch returns a snapshot when
    some line starts with [Connected], and throws the API Status error
    "Unable to parse API Status" when none does. *)
Theorem status_fetch_needs_a_Connected_line e w resp :
  server (trace (status_requested e w)) = Resolved resp ->
  is_text_plain resp = true ->
  existsb appends (JS.split JS.LF (text resp)) = false ->
  (existsb is_connected (JS.split JS.LF (text resp)) = true ->
   exists st, apiStatus (Some e) w = (Val st, status_requested e w)
              /\ parseApiStatus (text resp) = inr st)
  /\ (existsb is_connected (JS.split JS.LF (text resp)) = false ->
      apiStatus (Some e) w
      = (Throw (OverpassApiStatusError "Unable to parse API Status"),
         status_requested e w)).
Proof.
  intros Hresp Hplain Hsafe.
  destruct (parseApiStatus_cases (text resp)) as [[E _] | (_ & st & Hst & _)];
    [by rewrite E in Hsafe|].
  destruct (apiStatus_outcome e w resp Hresp) as (_ & Hgood & _).
  destruct (Hgood Hplain st Hst) as [Hnone Hsome].
  pose proof (clientId_iff := forEach_line_clientId _ _ _ Hst). cbn in clientId_iff.
  split.
  - intros Hc. exists st. split; [|done]. apply Hsome, clientId_iff. by right.
  - intros Hc. apply Hnone. destruct (clientId st) eqn:Eid; [|done].
    assert (is_Some (Some s)) as Hs by (by eexists).
    apply clientId_iff in Hs as [[? ?]|Hs]; [done|]. by rewrite Hc in Hs.
Qed.

(** What the status fetch has done when it returns a snapshot. *)
Lemma apiStatus_Val e w st w' :
  apiStatus e w = (Val st, w') ->
  exists e' resp,
    e = Some e' /\ w' = status_requested e' w
    /\ server (trace (status_requested e' w)) = Resolved resp
    /\ parseApiStatus (text resp) = inr st
    /\ is_Some (clientId st).
Proof.
  destruct e as [e'|]; [|done]. unfold apiStatus, bind, fetch.
  fold (status_requested e' w). unfold status_requested at 1. cbn [trace].
  destruct (server _) as [resp|] eqn:Hresp; [|done].
  destruct (match content_type resp with Some _ => _ | None => _ end); [done|].
  destruct (parseApiStatus (text resp)) as [|st'] eqn:Hst; cbn; [done|].
  destruct (bool_decide (is_Some (clientId st'))) eqn:Hid; cbn; [|done].
  intros [= <- <-]. apply bool_decide_eq_true in Hid.
  exists e', resp. by rewrite Hst.
Qed.

(** The snapshots of the status fetch have empty lists. *)
Lemma apiStatus_snapshot e w st w' :
  apiStatus e w = (Val st, w') ->
  retry_now st = JS.ge (JS.ToNumber (rateLimit st)) (JS.Num 0)
  /\ lowestWaitTime st = JS.Num 1.
Proof.
  intros H. destruct (apiStatus_Val _ _ _ _ H) as (e' & resp & _ & _ & _ & Hst & _).
  destruct (parseApiStatus_cases (text resp)) as [[_ E] | (_ & st' & E & Hr & Ha)];
    rewrite E in Hst; [done|]. injection Hst as <-.
  unfold retry_now, lowestWaitTime. rewrite Hr, Ha. cbn.
  split; [|done].
  destruct (JS.ToNumber (rateLimit st')) as [|z|p]; cbn; [done| |by destruct p].
  change (Z.of_nat 0) with 0%Z.
  destruct (Z.ltb_spec 0 z), (Z.eqb_spec z 0), (Z.leb_spec 0 z); cbn;
    first [done | exfalso; lia].
Qed.

(** X12. Every snapshot that the status fetch returns has a [clientId]
    and two empty lists. For such a snapshot the 429 branch retries at
    once exactly when [rateLimit >= 0], and otherwise (a negative,
    unreadable or missing rate limit) waits exactly one second. *)
Theorem fetched_snapshot_decision e w st w' :
  apiStatus e w = (Val st, w') ->
  is_Some (clientId st)
  /\ slotsRunning st = [] /\ slotsAvailableAfter st = []
  /\ retry_now st = JS.ge (JS.ToNumber (rateLimit st)) (JS.Num 0)
  /\ lowestWaitTime st = JS.Num 1.
Proof.
  intros H.
  destruct (apiStatus_Val _ _ _ _ H) as (e' & resp & _ & _ & _ & Hst & Hid).
  destruct (apiStatus_snapshot _ _ _ _ H) as [Hnow Hwait].
  destruct (parseApiStatus_cases (text resp)) as [[_ E] | (_ & st' & E & Hr & Ha)];
    rewrite E in Hst; [done|]. injection Hst as <-.
  done.
Qed.

Lemma apiStatus_world e w : (apiStatus (Some e) w).2 = status_requested e w.
Proof.
  unfold apiStatus, bind, fetch. fold (status_requested e w).
  destruct (server _) as [resp|reason]; [|done].
  destruct (match content_type resp with Some _ => _ | None => _ end); [done|].
  destruct (parseApiStatus (text resp)); cbn; [done|].
  by destruct (negb _).
Qed.

(** X13. In the 429 branch with a budget that is not zero, an error of
    the status fetch ends the call: the call throws that error, sets no
    timer and does not send the query again. *)
Theorem status_failure_ends_the_call fuel q l w resp err w1 :
  server (trace (posted q l w)) = Resolved resp ->
  status resp = 429%Z ->
  JS.eq (JS.ToNumber (numRetries (current_options l w))) (JS.Num 0) = false ->
  apiStatus (endpoint (current_options l w)) (posted q l w) = (Throw err, w1) ->
  overpass (S fuel) q l w = (Throw err, w1)
  /\ posts (trace w1) = posts (trace w) + 1
  /\ timeouts (trace w1) = timeouts (trace w).
Proof.
  intros Hresp E Hbudget Hst. rewrite overpass_S, Hresp.
  unfold on_response. rewrite (not_ok_429 _ E), E. cbn.
  unfold bind, prop. rewrite deref_opts_posted, Hbudget, deref_opts_posted, Hst.
  split; [done|].
  destruct (current_options l w) as [[e|] ? ? ? ?] eqn:Eo; cbn [endpoint] in Hst.
  - assert (Hw1 : w1 = status_requested e (posted q l w))
      by (by rewrite <- apiStatus_world, Hst).
    subst w1. unfold status_requested. cbn [trace].
    rewrite posts_app, timeouts_app. cbn.
    unfold posted. cbn [trace]. rewrite posts_app, timeouts_app, Eo.
    rewrite posts_posted, timeouts_announce_post. rewrite !app_nil_r.
    split; [unfold posts; cbn; lia | done].
  - injection Hst as _ <-.
    unfold posted. cbn [trace]. rewrite posts_app, timeouts_app, Eo.
    rewrite posts_posted, timeouts_announce_post, app_nil_r. done.
Qed.

(** ** The events of a whole call *)

Lemma event_ok_decremented o q e : event_ok (decremented o) q e <-> event_ok o q e.
Proof. by destruct e as [? []| |]. Qed.

Lemma Forall_event_ok_announce o q :
  Forall (event_ok o q) (announce o q ++ [post_request o q]).
Proof.
  unfold announce. destruct (truthy (verbose o)) eqn:Hv; cbn.
  - apply Forall_cons. split; [split; [done | by eexists]|].
    apply Forall_cons. split; [split; [done | by eexists]|].
    by apply Forall_cons.
  - by apply Forall_cons.
Qed.

(** The events of the status fetch. *)
Lemma apiStatus_events o q w :
  exists r ts,
    apiStatus (endpoint o) w = (r, mkWorld (heap w) (trace w ++ ts))
    /\ r <> OutOfFuel /\ Forall (event_ok o q) ts.
Proof.
  destruct (endpoint o) as [e|] eqn:Ee.
  2:{ exists (Throw (TypeError "Cannot read properties of undefined (reading 'replace')")), [].
      rewrite app_nil_r. split; [by destruct w|]. by split. }
  destruct (apiStatus_quiet (Some e) w) as (r & w' & E & Hr & _).
  pose proof (apiStatus_world e w) as Hw. rewrite E in Hw. cbn in Hw. subst w'.
  exists r, [EFetch (JS.replace "/interpreter" "/status" e) None].
  split; [exact E|]. split; [done|].
  apply Forall_cons. split; [|done]. cbn. by rewrite Ee.
Qed.

(** The events of the response callback, which ends the call or goes
    on to [retry]. *)
Lemma on_response_events retry q opts resp w :
  exists ts,
    Forall (event_ok (deref opts w) q) ts
    /\ ((exists r, r <> OutOfFuel
                   /\ on_response retry q opts resp w
                      = (r, mkWorld (heap w) (trace w ++ ts)))
        \/ on_response retry q opts resp w = retry (mkWorld (heap w) (trace w ++ ts))).
Proof.
  set (o := deref opts w).
  assert (Hnil : mkWorld (heap w) (trace w ++ []) = w)
    by (rewrite app_nil_r; by destruct w).
  remember (on_response retry q opts resp w) as R eqn:HR.
  unfold on_response in HR.
  destruct (negb (ok resp)).
  2:{ unfold bind, prop, when, consoleMsg, emit, ret in HR. cbn in HR. fold o in HR.
      destruct (truthy (verbose o)) eqn:Hv; cbn in HR.
      - destruct (bool_decide _).
        + eexists. split; [|left; eexists; split; [|exact HR]; done].
          apply Forall_cons. split; [split; [done | by eexists] | done].
        + exists []. split; [done|]. left. eexists. split; [|by rewrite Hnil]. done.
      - exists []. split; [done|]. left. eexists. split; [|by rewrite Hnil]. done. }
  destruct (status resp =? 400)%Z.
  { exists []. split; [done|]. left. eexists. split; [|by rewrite Hnil]. done. }
  destruct (status resp =? 429)%Z.
  { unfold bind at 1 in HR. unfold prop at 1 in HR.
    destruct (JS.eq _ _).
    { exists []. split; [done|]. left. eexists. split; [|by rewrite Hnil]. done. }
    unfold bind at 1 in HR. unfold prop at 1 in HR. unfold bind in HR. fold o in HR.
    destruct (apiStatus_events o q w) as (r & ts & E & Hr & Hts).
    rewrite E in HR. destruct r as [st|err|]; [| |done].
    2:{ exists ts. split; [done|]. left. exists (Throw err). split; [done | exact HR]. }
    destruct (apiStatus_snapshot _ _ _ _ E) as [_ Hwait].
    unfold on_apiStatus in HR. destruct (retry_now st).
    { exists ts. split; [done|]. by right. }
    unfold bind, prop, when, consoleMsg, sleep, emit, ret in HR. cbn in HR.
    rewrite Hwait in HR. cbn in HR.
    replace (deref opts (mkWorld (heap w) (trace w ++ ts))) with o in HR
      by (by apply deref_heap).
    destruct (truthy (verbose o)) eqn:Hv; cbn in HR; rewrite <- ?app_assoc in HR.
    - eexists. split; [|right; exact HR].
      apply Forall_app. split; [done|]. cbn [app].
      apply Forall_cons. split; [split; [done | by eexists]|].
      apply Forall_cons. split; [by right | done].
    - eexists. split; [|right; exact HR].
      apply Forall_app. split; [done|].
      apply Forall_cons. split; [by right | done]. }
  destruct (status resp =? 504)%Z.
  { unfold bind at 1 in HR. unfold prop at 1 in HR.
    destruct (JS.eq _ _).
    { exists []. split; [done|]. left. eexists. split; [|by rewrite Hnil]. done. }
    unfold bind, prop, sleep, emit in HR. cbn in HR. fold o in HR.
    eexists. split; [|right; exact HR].
    apply Forall_cons. split; [by left | done]. }
  exists []. split; [done|]. left. eexists. split; [|by rewrite Hnil]. done.
Qed.

(** Every event of a whole call is one that its options allow. *)
Lemma overpass_events fuel :
  forall q l w, exists r hs ts,
    overpass fuel q l w = (r, mkWorld (heap w ++ hs) (trace w ++ ts))
    /\ Forall (event_ok (current_options l w) q) ts.
Proof.
  induction fuel as [|fuel IH]; intros q l w.
  { exists OutOfFuel, [], []. cbn. unfold out_of_fuel.
    rewrite !app_nil_r. split; [by destruct w | done]. }
  rewrite overpass_S. set (o := current_options l w).
  pose proof (Forall_event_ok_announce o q) as Hpost.
  destruct (server _) as [resp|reason].
  2:{ unfold posted. fold o. by eexists _, _, _. }
  destruct (on_response_events
         (less <- oneLessRetry (length (heap w)) ;; overpass fuel q less)
         q (length (heap w)) resp (posted q l w)) as (ts & Hts & Hcase).
  rewrite deref_opts_posted in Hts. fold o in Hts.
  destruct Hcase as [(r & _ & E) | E]; rewrite E; unfold posted; fold o; cbn [heap trace].
  - exists r, [o], ((announce o q ++ [post_request o q]) ++ ts).
    split; [by rewrite <- !app_assoc|]. by apply Forall_app.
  - unfold bind. rewrite oneLessRetry_eq. cbn [heap trace]. rewrite deref_new.
    match goal with |- context [overpass fuel q ?l' ?w'] =>
      destruct (IH q l' w') as (r & hs & ts' & E' & Hts') end.
    rewrite E'. cbn [heap trace].
    rewrite <- (app_assoc (heap w) [o]) in Hts'. cbn [app] in Hts'.
    replace (length (heap w ++ [o])) with (S (length (heap w))) in Hts'
      by (rewrite length_app; cbn; lia).
    unfold o in Hts'. rewrite current_options_after_retry in Hts'. fold o in Hts'.
    exists r, ([o] ++ [decremented o; one_less_literal o] ++ hs),
      ((announce o q ++ [post_request o q]) ++ ts ++ ts').
    split; [by rewrite <- !app_assoc|].
    apply Forall_app. split; [done|]. apply Forall_app. split; [done|].
    eapply Forall_impl; [exact Hts'|]. intros e. apply event_ok_decremented.
Qed.

(** X14. Every request of a whole call, retries included, is either
    the POST of the call (the same endpoint, body and headers each
    time) or the status request for the endpoint of the call. *)
Theorem every_request_is_the_post_or_the_status_request fuel q l w :
  exists r hs ts,
    overpass fuel q l w = (r, mkWorld (heap w ++ hs) (trace w ++ ts))
    /\ Forall
         (fun e =>
            is_fetch e = true ->
            e = post_request (current_options l w) q
            \/ e = EFetch (JS.replace "/interpreter" "/status"
                             (str (endpoint (current_options l w)))) None)
         ts.
Proof.
  destruct (overpass_events fuel q l w) as (r & hs & ts & E & Hts).
  exists r, hs, ts. split; [done|].
  eapply Forall_impl; [exact Hts|].
  intros [url [init|]| |] Hok Hf; cbn in *; [by left | right; by rewrite Hok | done | done].
Qed.

(** X15. A call that is not verbose writes nothing to the console,
    however often it retries. *)
Theorem quiet_unless_verbose fuel q l w :
  truthy (verbose (current_options l w)) = false ->
  exists r hs ts,
    overpass fuel q l w = (r, mkWorld (heap w ++ hs) (trace w ++ ts))
    /\ Forall (fun e => is_console e = false) ts.
Proof.
  intros Hv. destruct (overpass_events fuel q l w) as (r & hs & ts & E & Hts).
  exists r, hs, ts. split; [done|].
  eapply Forall_impl; [exact Hts|].
  intros [url [init|]| |] Hok; cbn in *; try done.
  destruct Hok as [Hok _]. by rewrite Hv in Hok.
Qed.

(** X16. Every timer of a whole call is set either to [retryPause]
    milliseconds (after a 504) or to 1000 milliseconds (after a 429):
    the wait after a 429 never depends on what the status report
    says. *)
Theorem every_timer_is_retryPause_or_one_second fuel q l w :
  exists r hs ts,
    overpass fuel q l w = (r, mkWorld (heap w ++ hs) (trace w ++ ts))
    /\ Forall
         (fun e =>
            forall ms, e = ETimeout ms ->
                       ms = JS.ToNumber (retryPause (current_options l w))
                       \/ ms = JS.Num 1000)
         ts.
Proof.
  destruct (overpass_events fuel q l w) as (r & hs & ts & E & Hts).
  exists r, hs, ts. split; [done|].
  eapply Forall_impl; [exact Hts|].
  intros [url [init|]| |] Hok ms' [=]; subst. exact Hok.
Qed.

(** ** Further properties of the adapters *)

Lemma join_two sep x y rest :
  JS.join sep (x :: y :: rest) = x +:+ sep +:+ JS.join sep (y :: rest).
Proof. reflexivity. Qed.

(** Joining lines and splitting again gives the lines back. *)
Lemma split_join lines :
  lines <> [] ->
  Forall (fun s => one_line s = true) lines ->
  JS.split JS.LF (JS.join LINE_FEED lines) = lines.
Proof.
  induction lines as [|x [|y rest] IH]; intros Hne Hall; [done| |].
  - cbn. apply split_one. by inversion Hall.
  - rewrite join_two.
    change (x +:+ LINE_FEED +:+ JS.join LINE_FEED (y :: rest))
      with (x +:+ String JS.LF (JS.join LINE_FEED (y :: rest))).
    rewrite split_append. inversion Hall as [|? ? Hx Hrest]; subst.
    rewrite IH by done. rewrite split_one by exact Hx. done.
Qed.

Lemma join_app sep l1 l2 :
  l1 <> [] -> l2 <> [] ->
  JS.join sep (l1 ++ l2) = JS.join sep l1 +:+ sep +:+ JS.join sep l2.
Proof.
  intros H1 H2. induction l1 as [|x [|y rest] IH]; [done| |].
  - destruct l2; [done|]. reflexivity.
  - change ((x :: y :: rest) ++ l2) with (x :: (y :: rest) ++ l2).
    change ((y :: rest) ++ l2) with (y :: rest ++ l2) at 1.
    rewrite join_two. change (y :: rest ++ l2) with ((y :: rest) ++ l2).
    rewrite IH by done. rewrite join_two. by rewrite !append_assoc.
Qed.

Lemma plain_message_one_line msg :
  plain_message msg = true -> one_line (remark_line msg) = true.
Proof.
  destruct msg as [|c m]; [done|]. cbn [plain_message].
  intros [_ Hdot]%andb_true_iff. unfold one_line, remark_line.
  rewrite !every_append. rewrite (every_impl JS.is_dot _ _ is_dot_not_LF Hdot).
  reflexivity.
Qed.

Lemma exec_plain_message msg :
  plain_message msg = true ->
  JS.exec remark_regex (remark_line msg) = Some (msg +:+ " ", EmptyString).
Proof.
  destruct msg as [|c m]; [done|]. cbn [plain_message].
  intros [Hc Hdot]%andb_true_iff. apply exec_remark_line; [|done].
  by destruct (JS.is_space c).
Qed.

(** The backwards loop over remark lines: it takes them last first and
    stops at the line before them, or at the first line of the body. *)
Lemma collect_remarks_lines before stop msgs :
  before = [] \/ JS.exec remark_regex stop = None ->
  forall after,
    Forall (fun m => plain_message m = true) msgs ->
    collect_remarks (before ++ stop :: map remark_line msgs ++ after)
                    (length before + length msgs)
    = map (fun m => m +:+ " ") (rev msgs).
Proof.
  intros Hstop. induction msgs as [|x msgs IH] using rev_ind; intros after Hall.
  - cbn [length map rev app]. rewrite Nat.add_0_r.
    destruct Hstop as [->|Hstop]; [done|].
    destruct (length before) as [|n] eqn:Hlen; [done|].
    cbn [collect_remarks]. rewrite <- Hlen.
    by rewrite (list_lookup_middle before), Hstop.
  - apply Forall_app in Hall as [Hall Hx]. inversion Hx as [|? ? Hplain _]; subst.
    rewrite length_app, rev_app_distr, map_app. cbn [length rev app map].
    replace (length before + (length msgs + 1)) with (S (length before + length msgs)) by lia.
    set (L := before ++ stop :: (map remark_line msgs ++ [remark_line x]) ++ after).
    assert (HL : L = (before ++ stop :: map remark_line msgs) ++ remark_line x :: after).
    { subst L. by rewrite <- !app_assoc. }
    cbn [collect_remarks].
    assert (Hx' : L !! S (length before + length msgs) = Some (remark_line x)).
    { rewrite HL. apply list_lookup_middle.
      rewrite length_app. cbn [length]. rewrite length_map. lia. }
    rewrite Hx', exec_plain_message by done. f_equal.
    replace L with (before ++ stop :: map remark_line msgs ++ ([remark_line x] ++ after)).
    + by apply IH.
    + rewrite HL. rewrite <- !app_assoc. reflexivity.
Qed.

(** X17. For a body that ends with remark lines, an empty line and the
    closing tag, [overpassXml]'s check throws one error for all of
    them: its message lists the remarks last first, each followed by a
    space, joined by a comma and a space. The loop stops at the first
    line above that is no remark line, and it never looks at the first
    line of the body. *)
Theorem remarks_are_collected_last_first before stop msgs m :
  before = [] \/ JS.exec remark_regex stop = None ->
  Forall (fun s => one_line s = true) before ->
  one_line stop = true ->
  Forall (fun x => plain_message x = true) (msgs ++ [m]) ->
  check_xml_remark
    (JS.join LINE_FEED
       (before ++ stop :: map remark_line (msgs ++ [m])
        ++ [EmptyString; "</osm>"; EmptyString]))
  = inl (OverpassError (JS.join ", " (map (fun x => x +:+ " ") (m :: rev msgs)))).
Proof.
  intros Hstop Hbefore Hline Hplain.
  set (lines := before ++ stop :: map remark_line (msgs ++ [m])
                ++ [EmptyString; "</osm>"; EmptyString]).
  assert (Hsplit : JS.split JS.LF (JS.join LINE_FEED lines) = lines).
  { apply split_join; [subst lines; by destruct before|].
    subst lines. apply Forall_app. split; [done|].
    apply Forall_cons. split; [done|].
    apply Forall_app. split.
    - apply Forall_map. eapply Forall_impl; [exact Hplain|].
      intros x. apply plain_message_one_line.
    - by repeat (apply Forall_cons; split; [reflexivity|]). }
  assert (Hslice : JS.slice (-18) (Some (-9)%Z) (JS.join LINE_FEED lines) = "</remark>").
  { subst lines. rewrite map_app. cbn [map].
    replace (before ++ stop :: (map remark_line msgs ++ [remark_line m])
             ++ [EmptyString; "</osm>"; EmptyString])
      with (((before ++ stop :: map remark_line msgs) ++ [remark_line m])
            ++ [EmptyString; "</osm>"; EmptyString])
      by (by rewrite <- !app_assoc).
    rewrite join_app; [| by destruct before | done].
    rewrite join_app; [| by destruct before | done].
    set (J := JS.join LINE_FEED (before ++ stop :: map remark_line msgs)).
    match goal with |- JS.slice _ _ ?t = _ =>
      replace t with ((J +:+ LINE_FEED +:+ "<remark> " +:+ m +:+ " ")
                      +:+ "</remark>" +:+ osm_end)
    end.
    2:{ cbn [JS.join]. unfold remark_line. rewrite !append_assoc. reflexivity. }
    by apply slice_remark_position. }
  unfold check_xml_remark. rewrite Hslice, Hsplit.
  cbn [String.eqb Ascii.eqb Bool.eqb]. cbv iota.
  do 2 f_equal.
  replace (length lines - 4) with (length before + length (msgs ++ [m])).
  - subst lines. rewrite collect_remarks_lines by done.
    by rewrite rev_app_distr.
  - subst lines. rewrite !length_app. cbn [length].
    rewrite length_app, length_map, length_app. cbn [length]. lia.
Qed.

(** X18. The loop of [overpassXml] starts four lines from the end and
    never reaches the first line: a body of at most four lines with
    [</remark>] at the place the check looks at gives an error with an
    empty message. *)
Theorem short_body_gives_an_empty_message text :
  JS.slice (-18) (Some (-9)%Z) text = "</remark>" ->
  length (JS.split JS.LF text) <= 4 ->
  check_xml_remark text = inl (OverpassError EmptyString).
Proof.
  intros Hslice Hlen. unfold check_xml_remark. rewrite Hslice.
  cbn [String.eqb Ascii.eqb Bool.eqb]. cbv iota.
  by replace (length (JS.split JS.LF text) - 4) with 0 by lia.
Qed.

(** ** Further properties of the helpers *)

(** X19. [Object.assign({}, defaultOpts, overpassOpts)] builds one new
    object and writes to no other, and every property that
    [overpassOpts] holds is in the new object with the value that
    [overpassOpts] gives it. *)
Theorem merge_keeps_the_values_of_the_caller l w :
  exists o,
    merge_options l w
    = (Val (length (heap w)), mkWorld (heap w ++ [o]) (trace w))
    /\ (forall v, endpoint (deref l w) = Some v -> endpoint o = Some v)
    /\ (forall v, numRetries (deref l w) = Some v -> numRetries o = Some v)
    /\ (forall v, retryPause (deref l w) = Some v -> retryPause o = Some v)
    /\ (forall v, verbose (deref l w) = Some v -> verbose o = Some v)
    /\ (forall v, userAgent (deref l w) = Some v -> userAgent o = Some v).
Proof.
  exists (current_options l w). split; [apply merge_options_eq|].
  unfold current_options. destruct (deref l w) as [e n p v u]. cbn.
  split; [|split; [|split; [|split]]]; by intros ? ->.
Qed.

Lemma strip_prefix_Some p :
  forall s r, JS.strip_prefix p s = Some r -> s = p +:+ r.
Proof.
  induction p as [|c p IH]; intros s r H; cbn in H.
  - by injection H as ->.
  - destruct s as [|d s]; [done|].
    destruct (JS.ascii_eqb c d) eqn:Hcd; [|done].
    apply Ascii.eqb_eq in Hcd as ->. rewrite append_cons. f_equal. by apply IH.
Qed.

(** What a greedy repetition has taken when the match goes through. *)
Lemma greedy_inv {R} cls s :
  forall min (k : string -> string -> option R) r,
    JS.greedy cls min s k = Some r ->
    exists taken rest,
      s = taken +:+ rest /\ JS.every cls taken = true
      /\ min <= String.length taken /\ k taken rest = Some r.
Proof.
  induction s as [|c s IH]; intros min k r H.
  - cbn in H. destruct min; [|done]. by exists EmptyString, EmptyString.
  - cbn [JS.greedy] in H.
    assert (Hstop : match min with O => k EmptyString (String c s) | S _ => None end = Some r ->
                    exists taken rest,
                      String c s = taken +:+ rest /\ JS.every cls taken = true
                      /\ min <= String.length taken /\ k taken rest = Some r).
    { destruct min; [|done]. intros Hk. by exists EmptyString, (String c s). }
    destruct (cls c) eqn:Hc; [|by apply Hstop].
    destruct (JS.greedy cls (Nat.pred min) s (fun taken => k (String c taken)))
      as [r'|] eqn:Hg; [|by apply Hstop].
    injection H as ->.
    destruct (IH _ _ _ Hg) as (taken & rest & -> & Hall & Hmin & Hk).
    exists (String c taken), rest. rewrite append_cons. cbn.
    rewrite Hc, Hall. split; [done|]. split; [done|]. split; [lia | done].
Qed.

Lemma exec_inv p s :
  forall r, JS.exec p s = Some r ->
            exists a s', s = a +:+ s' /\ JS.match_here p s' EmptyString = Some r.
Proof.
  induction s as [|c s IH]; intros r H.
  - cbn in H. destruct (JS.match_here p EmptyString EmptyString) eqn:Hm; [|done].
    injection H as ->. by exists EmptyString, EmptyString.
  - cbn [JS.exec] in H.
    destruct (JS.match_here p (String c s) EmptyString) eqn:Hm.
    + injection H as ->. by exists EmptyString, (String c s).
    + destruct (IH _ H) as (a & s' & -> & Hs'). by exists (String c a), s'.
Qed.

(** A match of the pattern of the 400 branch is a fragment of the body. *)
Lemma exec_bad_request s m rest :
  JS.exec bad_request_regex s = Some (m, rest) ->
  exists a, s = a +:+ error_fragment m +:+ rest
            /\ m <> EmptyString /\ JS.every not_lt m = true.
Proof.
  intros H. destruct (exec_inv _ _ _ H) as (a & s' & -> & Hm).
  exists a. unfold bad_request_regex in Hm. cbn [JS.match_here] in Hm.
  destruct (JS.strip_prefix "</strong>: " s') as [r1|] eqn:H1; [|done].
  apply strip_prefix_Some in H1 as ->.
  destruct (greedy_inv _ _ _ _ _ Hm) as (taken & r2 & -> & Hall & Hmin & Hk).
  destruct (JS.strip_prefix " </p>" r2) as [r3|] eqn:H3; [|done].
  apply strip_prefix_Some in H3 as ->. injection Hk as <- <-.
  split; [|split; [|exact Hall]].
  - unfold error_fragment. by rewrite !append_assoc.
  - intros ->. cbn in Hmin. lia.
Qed.

Lemma matchAll_rounds_sound n :
  forall s m,
    m ∈ matchAll_rounds n bad_request_regex s ->
    (exists a b, s = a +:+ error_fragment m +:+ b)
    /\ m <> EmptyString /\ JS.every not_lt m = true.
Proof.
  induction n as [|n IH]; intros s m Hin; cbn in Hin; [by apply elem_of_nil in Hin|].
  destruct (JS.exec bad_request_regex s) as [[m1 rest]|] eqn:He;
    [|by apply elem_of_nil in Hin].
  destruct (exec_bad_request _ _ _ He) as (a & -> & Hne & Hall).
  apply elem_of_cons in Hin as [->|Hin].
  - split; [by exists a, rest | done].
  - destruct (IH _ _ Hin) as ((a' & b & ->) & Hne' & Hall').
    split; [|done]. exists (a +:+ error_fragment m1 +:+ a'), b.
    by rewrite !append_assoc.
Qed.

(** More rounds than the body has characters change nothing: the loop
    of [matchAll] has ended by then. *)
Lemma matchAll_rounds_stable n :
  forall k s,
    String.length s < n -> String.length s < k ->
    matchAll_rounds n bad_request_regex s = matchAll_rounds k bad_request_regex s.
Proof.
  induction n as [|n IH]; intros k s Hn Hk; [lia|].
  destruct k as [|k]; [lia|]. cbn.
  destruct (JS.exec bad_request_regex s) as [[m1 rest]|] eqn:He; [|done].
  destruct (exec_bad_request _ _ _ He) as (a & -> & Hne & _).
  f_equal. rewrite !length_append in Hn, Hk.
  assert (0 < String.length (error_fragment m1)).
  { unfold error_fragment. rewrite length_append. cbn. lia. }
  apply IH; lia.
Qed.

Lemma includes_append p a b : JS.includes p (a +:+ p +:+ b) = true.
Proof.
  unfold JS.includes. induction a as [|c a IH].
  - rewrite append_nil_l.
    destruct (p +:+ b) eqn:E; cbn; rewrite <- ?E, strip_prefix_append; done.
  - rewrite append_cons. cbn [JS.indexOf].
    destruct (JS.strip_prefix p (String c (a +:+ p +:+ b))); [done|].
    by destruct (JS.indexOf p (a +:+ p +:+ b)).
Qed.

(** X20. The messages that the 400 branch finds in a body: each is the
    text of a fragment [</strong>: MSG </p>] of the body, is not empty
    and holds no [<]; a body without the text [</strong>: ] gives no
    message. The loop of [matchAll] ends: the bound of the model on its
    rounds is never the reason to stop. *)
Theorem bad_request_messages s :
  Forall (fun m => (exists a b, s = a +:+ error_fragment m +:+ b)
                   /\ m <> EmptyString /\ JS.every not_lt m = true)
         (matchAll bad_request_regex s)
  /\ (JS.includes "</strong>: " s = false -> matchAll bad_request_regex s = [])
  /\ (forall n, String.length s < n ->
                matchAll_rounds n bad_request_regex s = matchAll bad_request_regex s).
Proof.
  split; [|split].
  - apply Forall_forall. intros m Hin. by apply (matchAll_rounds_sound _ _ _ Hin).
  - intros Hno. unfold matchAll. cbn [matchAll_rounds].
    destruct (JS.exec bad_request_regex s) as [[m1 rest]|] eqn:He; [|done].
    destruct (exec_bad_request _ _ _ He) as (a & -> & _).
    unfold error_fragment in Hno. rewrite !append_assoc in Hno.
    by rewrite (includes_append "</strong>: ") in Hno.
  - intros n Hn. unfold matchAll. apply matchAll_rounds_stable; lia.
Qed.

(** ** The parser, line after line *)

Lemma forEach_line_app l1 l2 st :
  forEach_line (l1 ++ l2) st
  = match forEach_line l1 st with
    | inl e => inl e
    | inr st1 => forEach_line l2 st1
    end.
Proof.
  revert st. induction l1 as [|x l1 IH]; intros st; [done|]. cbn.
  destruct (parseApiStatus_line st x); [done | apply IH].
Qed.

Lemma slice_after_prefix n (p x : string) :
  n = Z.of_nat (String.length p) ->
  JS.slice n None (p +:+ x) = x.
Proof.
  intros ->. unfold JS.slice, JS.clamp_index.
  destruct (Z.ltb_spec (Z.of_nat (String.length p)) 0) as [?|_]; [lia|].
  rewrite Nat2Z.id, length_append.
  replace (Nat.min (String.length p) (String.length p + String.length x))
    with (String.length p) by lia.
  rewrite substring_skip. apply substring_all. lia.
Qed.

Lemma first_word word rest :
  one_word word = true ->
  JS.first (JS.split JS.SP (word +:+ String JS.SP rest)) = word.
Proof.
  intros Hw. rewrite split_append, split_one by exact Hw. done.
Qed.

(** X21. Lines are read top to bottom and a later line overwrites an
    earlier one: when the parser returns a snapshot for a report, it
    returns, for the report with one more line [Connected as: ID], the
    same snapshot with [clientId] set to [ID]; and for the report with
    one more line [Rate limit: N], the same snapshot with [rateLimit]
    set to [parseInt(N)]. *)
Theorem later_lines_overwrite text st x :
  parseApiStatus text = inr st ->
  one_line x = true ->
  parseApiStatus (text +:+ String JS.LF ("Connected as: " +:+ x))
  = inr (mkStatus (Some x) (currentTime st) (rateLimit st)
                  (slotsRunning st) (slotsAvailableAfter st))
  /\ parseApiStatus (text +:+ String JS.LF ("Rate limit: " +:+ x))
     = inr (mkStatus (clientId st) (currentTime st) (Some (JS.parseInt x))
                     (slotsRunning st) (slotsAvailableAfter st)).
Proof.
  unfold parseApiStatus. intros Hst Hx.
  rewrite !split_append, !forEach_line_app, Hst.
  split.
  - rewrite (split_one JS.LF ("Connected as: " +:+ x))
      by (unfold one_line in Hx; by rewrite every_append, Hx).
    cbn [forEach_line]. unfold parseApiStatus_line. cbv zeta.
    change ("Connected as: " +:+ x) with ("Connected" +:+ String JS.SP ("as: " +:+ x)) at 1.
    rewrite first_word by reflexivity.
    cbn [String.eqb Ascii.eqb Bool.eqb]. cbv iota.
    by rewrite (slice_after_prefix 14 "Connected as: " x).
  - rewrite (split_one JS.LF ("Rate limit: " +:+ x))
      by (unfold one_line in Hx; by rewrite every_append, Hx).
    cbn [forEach_line]. unfold parseApiStatus_line. cbv zeta.
    change ("Rate limit: " +:+ x) with ("Rate" +:+ String JS.SP ("limit: " +:+ x)) at 1 2 3.
    rewrite first_word by reflexivity.
    cbn [String.eqb Ascii.eqb Bool.eqb]. cbv iota.
    change ("Rate" +:+ String JS.SP ("limit: " +:+ x)) with ("Rate limit: " +:+ x).
    by rewrite (slice_after_prefix 12 "Rate limit: " x).
Qed.

(** ** The 429 branch and the returned response *)

(** X22. A 429 with a budget that is not zero, when the status fetch
    returns a snapshot that does not allow to retry at once: the call
    waits 1000 milliseconds, whatever the snapshot says, and then runs
    again on a new object that holds its options with one retry
    less. *)
Theorem rate_limited_waits_one_second_and_retries fuel q l w resp st w1 :
  server (trace (posted q l w)) = Resolved resp ->
  status resp = 429%Z ->
  JS.eq (JS.ToNumber (numRetries (current_options l w))) (JS.Num 0) = false ->
  apiStatus (endpoint (current_options l w)) (posted q l w) = (Val st, w1) ->
  retry_now st = false ->
  let o := current_options l w in
  overpass (S fuel) q l w
  = overpass fuel q (S (length (heap w)))
      (mkWorld (heap w ++ [o; decremented o; one_less_literal o])
               (trace w1 ++ waiting_line o ++ [ETimeout (JS.Num 1000)])).
Proof.
  intros Hresp E Hbudget Hst Hnow. cbv zeta.
  destruct (apiStatus_snapshot _ _ _ _ Hst) as [_ Hwait].
  destruct (apiStatus_quiet (endpoint (current_options l w)) (posted q l w))
    as (r & w1' & E1 & _ & Hh & _).
  rewrite Hst in E1. injection E1 as <- <-.
  rewrite overpass_S, Hresp.
  unfold on_response. rewrite (not_ok_429 _ E), E. cbn.
  unfold bind, prop. rewrite deref_opts_posted, Hbudget, deref_opts_posted, Hst.
  unfold on_apiStatus. rewrite Hnow.
  unfold bind, prop, when, consoleMsg, sleep, emit, ret, waiting_line.
  rewrite Hwait. rewrite (deref_opts_after q l w w1) by done.
  destruct w1 as [h1 t1]. unfold posted in Hh. cbn in Hh. subst h1.
  destruct (truthy (verbose (current_options l w))); cbn [heap trace];
    rewrite oneLessRetry_eq; cbn [heap trace]; rewrite deref_new;
    (replace (length (heap w ++ [current_options l w])) with (S (length (heap w)))
       by (rewrite length_app; cbn; lia));
    by rewrite <- !app_assoc.
Qed.

(** A response that the callback returns is the one it was given, with
    a status in 200-299, or comes from the retry. *)
Lemma on_response_Val retry q opts resp w r w' :
  on_response retry q opts resp w = (Val r, w') ->
  (ok resp = true /\ r = resp) \/ exists w1, retry w1 = (Val r, w').
Proof.
  intros H. unfold on_response in H.
  destruct (ok resp) eqn:Hok; cbn [negb] in H.
  { left. split; [done|]. unfold bind, prop, when, consoleMsg, emit, ret in H.
    cbn in H. destruct (_ && _); by injection H. }
  right.
  destruct (status resp =? 400)%Z; [done|].
  destruct (status resp =? 429)%Z.
  { unfold bind at 1 in H. unfold prop at 1 in H.
    destruct (JS.eq _ _); [done|].
    unfold bind at 1 in H. unfold prop at 1 in H. unfold bind in H.
    destruct (apiStatus _ w) as [[st|err|] w1]; [|done|done].
    destruct (on_apiStatus_retry retry opts st w1) as (w2 & E2 & _).
    rewrite E2 in H. by exists w2. }
  destruct (status resp =? 504)%Z; [|done].
  unfold bind at 1 in H. unfold prop at 1 in H.
  destruct (JS.eq _ _); [done|].
  unfold bind, prop, sleep, emit in H. cbn in H. by eexists.
Qed.

(** X23. A response that [overpass] returns always has a status in
    200-299: whatever the service does and however many retries it
    takes, a response with another status is never handed to the
    caller. *)
Theorem returned_response_is_ok fuel :
  forall q l w resp w',
    overpass fuel q l w = (Val resp, w') -> ok resp = true.
Proof.
  induction fuel as [|fuel IH]; intros q l w resp w' H; [done|].
  rewrite overpass_S in H.
  destruct (server _) as [resp0|reason]; [|done].
  apply on_response_Val in H as [[Hok ->] | (w1 & H)]; [done|].
  unfold bind in H.
  destruct (oneLessRetry (length (heap w)) w1) as [[less|err|] w2]; [|done|done].
  by apply (IH _ _ _ _ _ H).
Qed.

End Program.

(** ** The program on concrete services *)

Import Scenario.

(** C5 (what the code does). The service answers the status request
    with [text/plain] and a report of its usual form; the status fetch
    throws a [TypeError]: it neither throws the API Status error nor
    returns a snapshot. The same happens for an empty body. *)
Theorem apiStatus_throws_TypeError :
  apiStatus no_date (scripted [status_report busy_report])
            (Some main_endpoint) (mkWorld [] [])
  = (Throw (TypeError "append is not a function"),
     mkWorld [] [EFetch "//overpass-api.de/api/status" None])
  /\ apiStatus no_date (scripted [status_report EmptyString])
               (Some main_endpoint) (mkWorld [] [])
     = (Throw (TypeError "append is not a function"),
        mkWorld [] [EFetch "//overpass-api.de/api/status" None]).
Proof. split; reflexivity. Qed.

(** The end-to-end run of the 429 branch on that report: the error of
    the parser ends the call before any timer is set. *)
Example rate_limited_end_to_end :
  (overpass main_endpoint no_date no_size
     (scripted [too_many_requests; status_report busy_report; success "{}"])
     2 "node(1);out;" 0 (caller 1)).1
  = Throw (TypeError "append is not a function").
Proof. reflexivity. Qed.

(** C7, a counterexample. With an endpoint that has [/interpreter]
    twice, the status request does not go to the endpoint with its
    trailing segment replaced. *)
Theorem status_url_not_trailing :
  let e := "//example.org/interpreter/api/interpreter" in
  replace_trailing_segment e = "//example.org/interpreter/api/status"
  /\ trace (apiStatus no_date (scripted []) (Some e) (mkWorld [] [])).2
     = [EFetch "//example.org/status/api/interpreter" None]
  /\ trace (apiStatus no_date (scripted []) (Some e) (mkWorld [] [])).2
     <> [EFetch (replace_trailing_segment e) None].
Proof. repeat split; try reflexivity. discriminate. Qed.

(** C6, a counterexample. A body with a remark that does not stand at
    the fixed place before the end is returned by [overpassXml]; a
    decoded body with an empty remark is returned by the callback of
    [overpassJson]. *)
Theorem remark_elsewhere_is_returned :
  let body := "<osm><remark> runtime error: Query timed out </remark></osm>" in
  embeds_remark body = true
  /\ (overpassXml main_endpoint no_date no_size (scripted [success body])
        1 "node(1);out;" 0 (caller 1)).1 = Val body
  /\ check_json_remark (remarked EmptyString) = inr (remarked EmptyString).
Proof. repeat split; reflexivity. Qed.

(** C10, a counterexample. [Infinity] is a budget that is at least 0,
    and [Infinity - 1] is [Infinity]: against a service that answers
    504 every time the call never ends. In the model every bound on the
    depth of the recursion is reached, with one POST for each level. *)
Theorem infinite_budget_never_ends :
  let w := tireless_caller in
  JS.ge (JS.Inf true) (JS.Num 0) = true
  /\ numRetries (current_options main_endpoint 0 w) = Some (JS.Inf true)
  /\ JS.sub (JS.Inf true) (JS.Num 1) = JS.Inf true
  /\ forall fuel,
       exists hs ts,
         overpass main_endpoint no_date no_size (always gateway_timeout) fuel query 0 w
         = (OutOfFuel, mkWorld (heap w ++ hs) (trace w ++ ts))
         /\ posts ts = fuel.
Proof.
  cbv zeta. split; [reflexivity|]. split; [reflexivity|]. split; [reflexivity|].
  intros fuel.
  apply (unreachable_zero_runs_out main_endpoint no_date no_size (always gateway_timeout)).
  - intros tr. eexists. split; reflexivity.
  - exact I.
Qed.

(** *** The theorems at concrete inputs *)

Lemma no_budget_no_retry_witness :
  let srv := scripted [too_many_requests] in
  let w := caller 0 in
  let q := "node(1);out;" in
  let resp := mkResponse 429 "Too Many Requests" None None EmptyString in
  numRetries (current_options main_endpoint 0 w) = Some (JS.Num 0)
  /\ srv (trace (posted main_endpoint q 0 w)) = Resolved resp
  /\ overpass main_endpoint no_date no_size srv 1 q 0 w
     = (Throw OverpassRateLimitError, posted main_endpoint q 0 w)
  /\ requests (trace (posted main_endpoint q 0 w)) = requests (trace w) + 1.
Proof.
  cbv zeta. split; [reflexivity|]. split; [reflexivity|].
  destruct (no_budget_no_retry main_endpoint no_date no_size
              (scripted [too_many_requests]) 0 "node(1);out;" 0 (caller 0)
              (mkResponse 429 "Too Many Requests" None None EmptyString)
              eq_refl eq_refl) as (H429 & _ & Hreq & _).
  split; [exact (H429 eq_refl) | exact Hreq].
Defined.

Lemma immediate_retry_decision_witness :
  shouldRetryImmediately idle_snapshot = true
  /\ shouldRetryImmediately busy_snapshot = false
  /\ (forall retry opts w,
        on_apiStatus retry opts idle_snapshot w = retry w)
  /\ (forall retry opts w,
        truthy (verbose (deref opts w)) = false ->
        on_apiStatus retry opts busy_snapshot w
        = retry (mkWorld (heap w) (trace w ++ [ETimeout (JS.Num 1000)]))).
Proof.
  destruct (immediate_retry_decision main_endpoint no_date no_size (scripted [])
              idle_snapshot) as (_ & Hzero & Hidle & _).
  destruct (immediate_retry_decision main_endpoint no_date no_size (scripted [])
              busy_snapshot) as (_ & _ & Hbusy & _).
  split; [exact (Hzero eq_refl)|]. split; [reflexivity|]. split.
  - intros retry opts w. exact (Hidle retry opts w).
  - intros retry opts w Hv. rewrite (Hbusy retry opts w). unfold wait_events.
    rewrite Hv. reflexivity.
Defined.

Lemma wait_at_least_one_second_witness :
  slotsAvailableAfter busy_snapshot = [JS.Num 5]
  /\ JS.ge (JS.Math_min (JS.Num 5) []) (JS.Num 0) = true
  /\ exists s, lowestWaitTime busy_snapshot = JS.Num s /\ (1 <= s)%Z.
Proof.
  split; [reflexivity|]. split; [reflexivity|].
  destruct (wait_at_least_one_second busy_snapshot (JS.Num 5) [] eq_refl eq_refl)
    as (s & Hs & Hle & _).
  exists s. split; [exact Hs | exact Hle].
Defined.

Lemma overpass_terminates_within_budget_witness :
  let srv := scripted [gateway_timeout; gateway_timeout; gateway_timeout] in
  (0 <= 2)%Z
  /\ (2 <= JS.MAX_SAFE)%Z
  /\ numRetries (current_options main_endpoint 0 (caller 2)) = Some (JS.Num 2)
  /\ Z.to_nat 2 < 3
  /\ exists r hs ts,
       overpass main_endpoint no_date no_size srv 3 "node(1);out;" 0 (caller 2)
       = (r, mkWorld (heap (caller 2) ++ hs) (trace (caller 2) ++ ts))
       /\ r <> OutOfFuel /\ posts ts <= Z.to_nat 2 + 1.
Proof.
  cbv zeta. split; [lia|]. split; [unfold JS.MAX_SAFE; lia|].
  split; [reflexivity|]. split; [cbn; lia|].
  apply (overpass_terminates_within_budget main_endpoint no_date no_size
           (scripted [gateway_timeout; gateway_timeout; gateway_timeout])
           2 3 "node(1);out;" 0 (caller 2));
    [lia | unfold JS.MAX_SAFE; lia | reflexivity | cbn; lia].
Defined.

Lemma status_request_url_witness :
  exists url,
    trace (apiStatus no_date (scripted []) (Some main_endpoint) (mkWorld [] [])).2
    = [EFetch url None]
    /\ url = "//overpass-api.de/api/status"
    /\ url = replace_trailing_segment main_endpoint.
Proof.
  destruct (status_request_url no_date (scripted []) main_endpoint (mkWorld [] []))
    as (url & Ht & Hfirst & _ & Htrailing).
  exists url. split; [exact Ht|]. split.
  - exact (Hfirst "//overpass-api.de/api" EmptyString eq_refl eq_refl).
  - exact (Htrailing "//overpass-api.de/api" eq_refl eq_refl).
Defined.

Lemma adapters_detect_remark_witness :
  let srv := scripted [success timed_out_body] in
  let q := "node(1);out;" in
  exists resp w',
    overpass main_endpoint no_date no_size srv 1 q 0 (caller 1) = (Val resp, w')
    /\ text resp
       = remark_body ("<?xml version=1.0?>" +:+ String JS.LF "<osm>")
                     "runtime error: Query timed out"
    /\ exists tail,
         overpassXml main_endpoint no_date no_size srv 1 q 0 (caller 1)
         = (Throw (OverpassError ("runtime error: Query timed out" +:+ " " +:+ tail)), w').
Proof.
  cbv zeta. eexists _, _. split; [reflexivity|]. split; [reflexivity|].
  destruct (adapters_detect_remark main_endpoint no_date no_size
              (scripted [success timed_out_body]) no_json
              1 "node(1);out;" 0 (caller 1) _ _ eq_refl)
    as (_ & _ & _ & _ & _ & Hbody).
  exact (Hbody ("<?xml version=1.0?>" +:+ String JS.LF "<osm>")
               "r"%char "untime error: Query timed out" eq_refl eq_refl eq_refl).
Defined.

(** ** The built-ins on examples *)

Example split_ex1 : JS.split JS.SP "Rate limit: 2" = ["Rate"; "limit:"; "2"].
Proof. reflexivity. Qed.
Example split_ex2 : JS.split JS.LF EmptyString = [EmptyString].
Proof. reflexivity. Qed.
Example slice_ex1 : JS.slice 14%Z None "Connected as: 1234" = "1234".
Proof. reflexivity. Qed.
Example slice_ex2 : JS.slice (-4)%Z (Some (-2)%Z) "abcdefgh" = "ef".
Proof. reflexivity. Qed.
Example slice_ex3 : JS.slice (-18)%Z (Some (-9)%Z) "abc" = EmptyString.
Proof. reflexivity. Qed.
Example replace_ex1 :
  JS.replace "/interpreter" "/status" "//overpass-api.de/api/interpreter"
  = "//overpass-api.de/api/status".
Proof. reflexivity. Qed.
Example replaceAll_ex1 : JS.replaceAll "ab" "x" "abcabab" = "xcxx".
Proof. reflexivity. Qed.
Example number_to_string_ex : JS.number_to_string (JS.Num (-12)) = "-12".
Proof. reflexivity. Qed.
Example max_safe_ex : JS.MAX_SAFE = (2 ^ 53)%Z.
Proof. reflexivity. Qed.
Example infinity_ex1 : JS.sub (JS.Inf true) (JS.Num 1) = JS.Inf true.
Proof. reflexivity. Qed.
Example infinity_ex2 : JS.Math_min (JS.Num 0) [JS.Inf true; JS.Num 5] = JS.Num 0.
Proof. reflexivity. Qed.
Example infinity_ex3 : JS.mul (JS.Inf false) (JS.Num 0) = JS.NaN.
Proof. reflexivity. Qed.
Example json_ex1 :
  check_json_remark (remarked "runtime error: Query timed out")
  = inl (OverpassError "runtime error: Query timed out").
Proof. reflexivity. Qed.
Example json_ex2 : check_json_remark (JArray [JNull]) = inr (JArray [JNull]).
Proof. reflexivity. Qed.
Example json_ex3 :
  check_json_remark (JObject [("remark", JArray [JNumber (JS.Num 1); JNull; JBool true])])
  = inl (OverpassError "1,,true").
Proof. reflexivity. Qed.
Example parseInt_ex1 : JS.parseInt "5 seconds." = JS.Num 5.
Proof. reflexivity. Qed.
Example parseInt_ex2 : JS.parseInt "  -0x1F;" = JS.Num (-31).
Proof. reflexivity. Qed.
Example parseInt_ex3 : JS.parseInt "abc" = JS.NaN.
Proof. reflexivity. Qed.
Example encode_ex1 : JS.encodeURIComponent "[out:json];node(1);" = "%5Bout%3Ajson%5D%3Bnode(1)%3B".
Proof. reflexivity. Qed.


(** ** The further properties at concrete inputs *)

Lemma bad_request_is_not_retried_witness :
  overpass main_endpoint no_date no_size (scripted [bad_request]) 1 query 0 (caller 5)
  = (Throw (OverpassBadRequestError query ["line 1: parse error: Unknown type"]),
     posted main_endpoint query 0 (caller 5)).
Proof.
  apply (bad_request_is_not_retried main_endpoint no_date no_size
           (scripted [bad_request]) 0 query 0 (caller 5)
           (mkResponse 400 "Bad Request" (Some "text/html") None
              "<p><strong style=c>Error</strong>: line 1: parse error: Unknown type </p>")
           eq_refl eq_refl).
Defined.

Lemma other_status_is_not_retried_witness :
  overpass main_endpoint no_date no_size (scripted [teapot]) 1 query 0 (caller 5)
  = (Throw (OverpassError "418 I'm a teapot"), posted main_endpoint query 0 (caller 5)).
Proof.
  apply (other_status_is_not_retried main_endpoint no_date no_size
           (scripted [teapot]) 0 query 0 (caller 5)
           (mkResponse 418 "I'm a teapot" None None EmptyString)
           eq_refl eq_refl); discriminate.
Defined.

Lemma success_is_returned_unchanged_witness :
  (overpass main_endpoint no_date no_size (scripted [success "{}"]) 1 query 0 (caller 5)).1
  = Val (mkResponse 200 "OK" (Some "application/json") None "{}").
Proof.
  rewrite (success_is_returned_unchanged main_endpoint no_date no_size
             (scripted [success "{}"]) 0 query 0 (caller 5)
             (mkResponse 200 "OK" (Some "application/json") None "{}")
             eq_refl eq_refl).
  reflexivity.
Defined.

Lemma network_failure_is_not_retried_witness :
  overpass main_endpoint no_date no_size (scripted []) 1 query 0 (caller 5)
  = (Throw (FetchError "connection closed"), posted main_endpoint query 0 (caller 5)).
Proof.
  apply (network_failure_is_not_retried main_endpoint no_date no_size
           (scripted []) 0 query 0 (caller 5) "connection closed" eq_refl).
Defined.

Lemma gateway_timeout_pauses_and_retries_witness :
  let srv := scripted [gateway_timeout; success "{}"] in
  let o := current_options main_endpoint 0 (caller 1) in
  overpass main_endpoint no_date no_size srv 2 query 0 (caller 1)
  = overpass main_endpoint no_date no_size srv 1 query 2
      (mkWorld (heap (caller 1) ++ [o; decremented o; one_less_literal o])
               (trace (posted main_endpoint query 0 (caller 1))
                ++ [ETimeout (JS.Num 2000)])).
Proof.
  cbv zeta.
  apply (gateway_timeout_pauses_and_retries main_endpoint no_date no_size
           (scripted [gateway_timeout; success "{}"]) 1 query 0 (caller 1)
           (mkResponse 504 "Gateway Timeout" None None EmptyString)
           eq_refl eq_refl eq_refl).
Defined.

Lemma always_gateway_timeout :
  forall tr, exists resp, always gateway_timeout tr = Resolved resp /\ status resp = 504%Z.
Proof. intros tr. eexists. split; reflexivity. Defined.

Lemma persistent_504_uses_the_whole_budget_witness :
  exists hs ts,
    overpass main_endpoint no_date no_size (always gateway_timeout) 3 query 0 (caller 2)
    = (Throw OverpassGatewayTimeoutError,
       mkWorld (heap (caller 2) ++ hs) (trace (caller 2) ++ ts))
    /\ posts ts = 3 /\ requests ts = 3
    /\ timeouts ts = [ETimeout (JS.Num 2000); ETimeout (JS.Num 2000)].
Proof.
  apply (persistent_504_uses_the_whole_budget main_endpoint no_date no_size
           (always gateway_timeout) always_gateway_timeout 2 3 query 0 (caller 2));
    [lia | unfold JS.MAX_SAFE; lia | reflexivity | cbn; lia].
Defined.

Lemma negative_budget_retries_forever_witness :
  exists hs ts,
    overpass main_endpoint no_date no_size (always gateway_timeout) 7 query 0 (caller (-1))
    = (OutOfFuel, mkWorld (heap (caller (-1)) ++ hs) (trace (caller (-1)) ++ ts))
    /\ posts ts = 7.
Proof.
  apply (negative_budget_retries_forever main_endpoint no_date no_size
           (always gateway_timeout) always_gateway_timeout 7 query 0 (caller (-1))).
  reflexivity.
Defined.

Lemma parser_never_fills_the_lists_witness :
  parseApiStatus no_date idle_report = inr idle_snapshot
  /\ slotsRunning idle_snapshot = [] /\ slotsAvailableAfter idle_snapshot = []
  /\ existsb appends (JS.split JS.LF idle_report) = false.
Proof.
  split; [reflexivity|].
  apply (parser_never_fills_the_lists no_date idle_report idle_snapshot eq_refl).
Defined.

Lemma clientId_needs_a_Connected_line_witness :
  is_Some (clientId idle_snapshot)
  <-> existsb is_connected (JS.split JS.LF idle_report) = true.
Proof.
  apply (clientId_needs_a_Connected_line no_date idle_report idle_snapshot eq_refl).
Defined.

Lemma wrong_content_type_is_rejected_witness :
  apiStatus no_date (scripted [html_page]) (Some main_endpoint) (mkWorld [] [])
  = (Throw (OverpassApiStatusError "Response type incorrect (text/html)"),
     status_requested main_endpoint (mkWorld [] [])).
Proof.
  apply (wrong_content_type_is_rejected no_date (scripted [html_page])
           main_endpoint (mkWorld [] [])
           (mkResponse 200 "OK" (Some "text/html") None "<html></html>")
           eq_refl eq_refl).
Defined.

Lemma status_fetch_needs_a_Connected_line_witness :
  exists st,
    apiStatus no_date (scripted [status_report idle_report])
              (Some main_endpoint) (mkWorld [] [])
    = (Val st, status_requested main_endpoint (mkWorld [] []))
    /\ parseApiStatus no_date idle_report = inr st.
Proof.
  destruct (status_fetch_needs_a_Connected_line no_date
              (scripted [status_report idle_report]) main_endpoint (mkWorld [] [])
              (mkResponse 200 "OK" (Some "text/plain; charset=utf-8") None idle_report)
              eq_refl eq_refl eq_refl) as [Hsome _].
  exact (Hsome eq_refl).
Defined.

Lemma fetched_snapshot_decision_witness :
  is_Some (clientId odd_snapshot)
  /\ slotsRunning odd_snapshot = [] /\ slotsAvailableAfter odd_snapshot = []
  /\ retry_now odd_snapshot = JS.ge (JS.ToNumber (rateLimit odd_snapshot)) (JS.Num 0)
  /\ lowestWaitTime odd_snapshot = JS.Num 1.
Proof.
  apply (fetched_snapshot_decision no_date (scripted [status_report odd_report])
           (Some main_endpoint) (mkWorld [] []) odd_snapshot
           (status_requested main_endpoint (mkWorld [] [])) eq_refl).
Defined.

Lemma status_failure_ends_the_call_witness :
  let srv := scripted [too_many_requests; html_page; success "{}"] in
  let w1 := status_requested main_endpoint (posted main_endpoint query 0 (caller 3)) in
  overpass main_endpoint no_date no_size srv 4 query 0 (caller 3)
  = (Throw (OverpassApiStatusError "Response type incorrect (text/html)"), w1)
  /\ posts (trace w1) = posts (trace (caller 3)) + 1
  /\ timeouts (trace w1) = timeouts (trace (caller 3)).
Proof.
  cbv zeta.
  apply (status_failure_ends_the_call main_endpoint no_date no_size
           (scripted [too_many_requests; html_page; success "{}"]) 3 query 0 (caller 3)
           (mkResponse 429 "Too Many Requests" None None EmptyString)
           (OverpassApiStatusError "Response type incorrect (text/html)")
           (status_requested main_endpoint (posted main_endpoint query 0 (caller 3)))
           eq_refl eq_refl eq_refl eq_refl).
Defined.

Lemma quiet_unless_verbose_witness :
  exists r hs ts,
    overpass main_endpoint no_date no_size
      (scripted [gateway_timeout; success "{}"]) 2 query 0 (caller 1)
    = (r, mkWorld (heap (caller 1) ++ hs) (trace (caller 1) ++ ts))
    /\ Forall (fun e => is_console e = false) ts.
Proof.
  apply (quiet_unless_verbose main_endpoint no_date no_size
           (scripted [gateway_timeout; success "{}"]) 2 query 0 (caller 1) eq_refl).
Defined.

Lemma remarks_are_collected_last_first_witness :
  check_xml_remark
    (JS.join LINE_FEED
       (["<?xml version=1.0?>"] ++ "<osm>" :: map remark_line (["first"] ++ ["second"])
        ++ [EmptyString; "</osm>"; EmptyString]))
  = inl (OverpassError "second , first ").
Proof.
  apply (remarks_are_collected_last_first ["<?xml version=1.0?>"] "<osm>" ["first"] "second").
  - right. reflexivity.
  - apply Forall_cons. split; [reflexivity | apply Forall_nil_2].
  - reflexivity.
  - apply Forall_cons. split; [reflexivity|].
    apply Forall_cons. split; [reflexivity | apply Forall_nil_2].
Defined.

Lemma short_body_gives_an_empty_message_witness :
  check_xml_remark (remark_line "runtime error" +:+ osm_end)
  = inl (OverpassError EmptyString).
Proof.
  apply (short_body_gives_an_empty_message (remark_line "runtime error" +:+ osm_end)).
  - reflexivity.
  - vm_compute. lia.
Defined.

Lemma later_lines_overwrite_witness :
  parseApiStatus no_date
    (idle_report +:+ String JS.LF ("Connected as: " +:+ "42"))
  = inr (mkStatus (Some "42") None (Some (JS.Num 0)) [] [])
  /\ parseApiStatus no_date
       (idle_report +:+ String JS.LF ("Rate limit: " +:+ "42"))
     = inr (mkStatus (Some "1234567") None (Some (JS.Num 42)) [] []).
Proof.
  apply (later_lines_overwrite no_date idle_report idle_snapshot "42" eq_refl eq_refl).
Defined.

Lemma rate_limited_waits_one_second_and_retries_witness :
  let srv := scripted [too_many_requests; status_report odd_report; success "{}"] in
  let o := current_options main_endpoint 0 (caller 1) in
  overpass main_endpoint no_date no_size srv 2 query 0 (caller 1)
  = overpass main_endpoint no_date no_size srv 1 query 2
      (mkWorld (heap (caller 1) ++ [o; decremented o; one_less_literal o])
               (trace (status_requested main_endpoint
                         (posted main_endpoint query 0 (caller 1)))
                ++ [ETimeout (JS.Num 1000)])).
Proof.
  cbv zeta.
  apply (rate_limited_waits_one_second_and_retries main_endpoint no_date no_size
           (scripted [too_many_requests; status_report odd_report; success "{}"])
           1 query 0 (caller 1)
           (mkResponse 429 "Too Many Requests" None None EmptyString)
           odd_snapshot
           (status_requested main_endpoint (posted main_endpoint query 0 (caller 1)))
           eq_refl eq_refl eq_refl eq_refl eq_refl).
Defined.

Lemma returned_response_is_ok_witness :
  ok (mkResponse 200 "OK" (Some "application/json") None "{}") = true.
Proof.
  apply (returned_response_is_ok main_endpoint no_date no_size
           (scripted [gateway_timeout; success "{}"]) 2 query 0 (caller 1)
           (mkResponse 200 "OK" (Some "application/json") None "{}")
           (overpass main_endpoint no_date no_size
              (scripted [gateway_timeout; success "{}"]) 2 query 0 (caller 1)).2
           eq_refl).
Defined.
